(** * create_make.py: the Makefile generator, embedded and verified

    A shallow embedding of [create_make.py]: the file classifier
    ([Source_Files.add_file], [scan_files]), the include scanner
    ([find_includes]), the dependency resolver ([create_depend]), the
    emitter and the main program.

    Conventions.
    - A Python [str] is the list of its code points ([list N]); a Python
      [bytes] object or a memory-mapped file is a [list byte].
    - A Python exception is a value of [exn]; a function that may raise
      returns a [result].  A method that mutates its object and may raise
      returns the object as it is left together with the [result].  The
      [Source_Files] object that the functions of the script call [files]
      is called [sf] here, [files] being its dictionary of buckets.
    - The file system is a [World]: the entries of each directory in the
      order [os.scandir] yields them, with the raw content of each file,
      whether a path can be listed and whether a file can be written. *)

From Stdlib Require Import ZArith NArith List Lia Bool Ascii String.
From Stdlib Require Import Strings.Byte.
From stdpp Require Import base option list gmap.

Local Open Scope Z_scope.

(** ** Python strings and bytes *)

Abbreviation str := (list N).
Abbreviation bytes := (list byte).

(** An ASCII literal as a [str]. *)
Definition u (s : string) : str :=
  List.map N_of_ascii (list_ascii_of_string s).

(** An ASCII literal as [bytes] (a [b'...'] literal). *)
Definition b (s : string) : bytes := list_byte_of_string s.

Definition TAB : str := [9%N].
Definition NL : str := [10%N].

#[global] Instance byte_eq_decision : EqDecision byte := Byte.byte_eq_dec.

(** [len(s)] *)
Definition len {A} (l : list A) : Z := Z.of_nat (length l).

(** [n * s] for a string [s] and an integer [n] *)
Definition str_mul (n : Z) (s : str) : str :=
  List.concat (List.repeat s (Z.to_nat n)).

(** The characters [str.strip()] removes: the code points for which
    [str.isspace] holds. *)
Definition is_space (c : N) : bool :=
  ((9 <=? c) && (c <=? 13) || (28 <=? c) && (c <=? 32)
   || (c =? 133) || (c =? 160) || (c =? 5760)
   || (8192 <=? c) && (c <=? 8202)
   || (c =? 8232) || (c =? 8233) || (c =? 8239) || (c =? 8287)
   || (c =? 12288))%N.

Fixpoint lstrip (s : str) : str :=
  match s with
  | [] => []
  | c :: s' => if is_space c then lstrip s' else s
  end.

Definition rstrip (s : str) : str := rev (lstrip (rev s)).

(** [s.strip()] *)
Definition strip (s : str) : str := rstrip (lstrip s).

(** [s.split(sep)] for a one-character separator: every occurrence of the
    separator splits, empty pieces are kept. *)
Fixpoint split (sep : N) (s : str) : list str :=
  match s with
  | [] => [[]]
  | c :: s' =>
      if (c =? sep)%N then [] :: split sep s'
      else match split sep s' with
           | [] => [[c]]
           | w :: ws => (c :: w) :: ws
           end
  end.

(** [s[:-2]] *)
Definition drop_last2 (s : str) : str :=
  firstn (length s - 2)%nat s.

(** [x in l] for a list of strings *)
Definition str_in (x : str) (l : list str) : bool := bool_decide (x ∈ l).

(** *** UTF-8 *)

Definition byte_of_N (n : N) : byte :=
  match Byte.of_N n with Some x => x | None => x00 end.

(** [s.encode('utf-8')]: [None] stands for [UnicodeEncodeError], raised
    on a surrogate code point. *)
Definition encode_cp (c : N) : option bytes :=
  (if c <? 128 then Some [byte_of_N c]
   else if c <? 2048 then
     Some [byte_of_N (192 + c / 64); byte_of_N (128 + c mod 64)]
   else if c <? 65536 then
     if (55296 <=? c) && (c <=? 57343) then None
     else Some [byte_of_N (224 + c / 4096);
                byte_of_N (128 + (c / 64) mod 64);
                byte_of_N (128 + c mod 64)]
   else if c <? 1114112 then
     Some [byte_of_N (240 + c / 262144);
           byte_of_N (128 + (c / 4096) mod 64);
           byte_of_N (128 + (c / 64) mod 64);
           byte_of_N (128 + c mod 64)]
   else None)%N.

Fixpoint encode_utf8 (s : str) : option bytes :=
  match s with
  | [] => Some []
  | c :: s' =>
      match encode_cp c, encode_utf8 s' with
      | Some x, Some y => Some (x ++ y)
      | _, _ => None
      end
  end.

Definition is_cont (x : N) : bool := ((128 <=? x) && (x <=? 191))%N.

(** [bs.decode('utf-8')] in strict mode: [None] stands for
    [UnicodeDecodeError] (a stray or missing continuation byte, an
    overlong form, a surrogate, a code point above U+10FFFF).  [fuel]
    bounds the number of characters. *)
Fixpoint decode_utf8_fuel (fuel : nat) (bs : list N) : option str :=
  match fuel with
  | O => match bs with [] => Some [] | _ => None end
  | S fuel' =>
      match bs with
      | [] => Some []
      | b1 :: r1 =>
          (if b1 <? 128 then cons b1 <$> decode_utf8_fuel fuel' r1
           else if (194 <=? b1) && (b1 <=? 223) then
             match r1 with
             | b2 :: r2 =>
                 if is_cont b2
                 then cons ((b1 - 192) * 64 + (b2 - 128))
                        <$> decode_utf8_fuel fuel' r2
                 else None
             | _ => None
             end
           else if (224 <=? b1) && (b1 <=? 239) then
             match r1 with
             | b2 :: b3 :: r3 =>
                 if is_cont b2 && is_cont b3
                    && negb ((b1 =? 224) && (b2 <? 160))
                    && negb ((b1 =? 237) && (160 <=? b2))
                 then cons ((b1 - 224) * 4096 + (b2 - 128) * 64 + (b3 - 128))
                        <$> decode_utf8_fuel fuel' r3
                 else None
             | _ => None
             end
           else if (240 <=? b1) && (b1 <=? 244) then
             match r1 with
             | b2 :: b3 :: b4 :: r4 =>
                 if is_cont b2 && is_cont b3 && is_cont b4
                    && negb ((b1 =? 240) && (b2 <? 144))
                    && negb ((b1 =? 244) && (144 <=? b2))
                 then cons ((b1 - 240) * 262144 + (b2 - 128) * 4096
                            + (b3 - 128) * 64 + (b4 - 128))
                        <$> decode_utf8_fuel fuel' r4
                 else None
             | _ => None
             end
           else None)%N
      end
  end.

Definition decode_utf8 (bs : bytes) : option str :=
  decode_utf8_fuel (length bs) (List.map Byte.to_N bs).

(** ** Exceptions *)

Inductive exn :=
| MultipleMainError (first_file second_file : str)
| PathNotFound (dir : str)
| ValueError
| IndexError
| KeyError
| UnboundLocalError
| TypeError
| UnicodeEncodeError
| UnicodeDecodeError
| FileNotFoundError
| OSError.

Inductive result (A : Type) :=
| Ok (a : A)
| Raise (e : exn).
Arguments Ok {A} a.
Arguments Raise {A} e.

#[global] Instance exn_eq_decision : EqDecision exn.
Proof. solve_decision. Defined.

#[global] Instance result_eq_decision {A} `{EqDecision A} :
  EqDecision (result A).
Proof. solve_decision. Defined.

(** ** Memory-mapped files

    [mmap.mmap(fileno, length=0, access=ACCESS_READ)] maps the whole file
    and raises [ValueError] on an empty file; the mapping of a non-empty
    file is the list of its bytes. *)

Fixpoint starts_with (sub m : bytes) : bool :=
  match sub, m with
  | [], _ => true
  | x :: sub', y :: m' => bool_decide (x = y) && starts_with sub' m'
  | _ :: _, [] => false
  end.

Fixpoint find_from (pos : Z) (m sub : bytes) {struct m} : Z :=
  match m with
  | [] => if starts_with sub [] then pos else -1
  | _ :: m' => if starts_with sub m then pos else find_from (pos + 1) m' sub
  end.

(** [m.find(sub)]: the lowest index at which [sub] occurs, [-1] if none *)
Definition find (m sub : bytes) : Z := find_from 0 m sub.

(** [m[i]]: a negative index counts from the end; [None] stands for
    [IndexError] *)
Definition getitem (m : bytes) (i : Z) : option byte :=
  let j := if i <? 0 then i + len m else i in
  if (j <? 0) || (len m <=? j) then None else m !! Z.to_nat j.

Definition adjust_index (n i : Z) : Z :=
  if i <? 0 then Z.max 0 (i + n) else Z.min i n.

(** [m[start:stop]] *)
Definition getslice (m : bytes) (start stop : Z) : bytes :=
  let s := adjust_index (len m) start in
  let e := adjust_index (len m) stop in
  firstn (Z.to_nat (e - s)) (skipn (Z.to_nat s) m).

(** [ord('#')] *)
Definition HASH : byte := x23.

(** ** The file system *)

(** A directory entry ([nt.DirEntry]): [file.name], [file.is_file()] and
    the raw content found at [file.path]. *)
Record DirEntry := {
  entry_name : str;
  entry_is_file : bool;
  entry_data : bytes
}.

Record World := {
  getcwd : str;                          (* os.getcwd() *)
  path_exists : str -> bool;             (* os.path.exists *)
  os_scandir : str -> option (list DirEntry);
                                         (* os.scandir(path), in its order;
                                            None when it raises OSError (the
                                            path is not a directory that can
                                            be listed) *)
  header_txt : str -> option (list str); (* the lines of the text file at a
                                            path, None when it does not exist *)
  writable : str -> bool;                (* a file at this path can be
                                            created or truncated *)
  localtime : str                        (* get_curr_time() *)
}.

(** The entries of the directory at a path; none when it cannot be
    listed. *)
Definition scandir (w : World) (path : str) : list DirEntry :=
  default [] (os_scandir w path).

(** The content read by [open(path + filename)] in the directory whose
    entries are [d]. *)
Definition read_file (d : list DirEntry) (filename : str) : option bytes :=
  entry_data <$>
    List.find (fun e => entry_is_file e && bool_decide (entry_name e = filename)) d.

(** ** Source_Files *)

(** A bucket [[ [str,...], str, int ]]: the list of files, all files as
    one string, and the number of files. *)
Record FileSet := {
  fs_list : list str;
  fs_joined : str;
  fs_count : Z
}.

#[global] Instance FileSet_eq_decision : EqDecision FileSet.
Proof. solve_decision. Defined.

Definition fs_empty : FileSet :=
  {| fs_list := []; fs_joined := []; fs_count := 0 |}.

(** [fs[0].append(x); fs[1] += x + ' '; fs[2] += 1] *)
Definition fs_append (fs : FileSet) (x : str) : FileSet :=
  {| fs_list := fs_list fs ++ [x];
     fs_joined := fs_joined fs ++ x ++ u " ";
     fs_count := fs_count fs + 1 |}.

Record Source_Files := {
  path : str;
  files : gmap str FileSet;
  main : str * str;
  obj : FileSet;
  total_files : Z
}.

Definition OBJ_SUF : str := u ".o".
Definition DOT : N := 46%N.
Definition BACKSLASH : str := [92%N].

Definition init_files : gmap str FileSet :=
  <[u ".c" := fs_empty]> (<[u ".cpp" := fs_empty]> (<[u ".ps" := fs_empty]>
  (<[u ".s" := fs_empty]> (<[u ".h" := fs_empty]> ∅)))).

Definition new_Source_Files (p : str) : Source_Files :=
  {| path := p; files := init_files; main := ([], []);
     obj := fs_empty; total_files := 0 |}.

(** [Source_Files.__init__] *)
Definition Source_Files_init (w : World) (dir : option str)
  : result Source_Files :=
  match dir with
  | Some (c :: d) =>
      let dir := c :: d in
      if path_exists w (getcwd w ++ BACKSLASH ++ dir) then
        Ok (new_Source_Files (getcwd w ++ BACKSLASH ++ dir ++ BACKSLASH))
      else if path_exists w dir then
        Ok (new_Source_Files (dir ++ BACKSLASH))
      else Raise (PathNotFound dir)
  | _ => Ok (new_Source_Files (getcwd w ++ BACKSLASH))
  end.

(** [Source_Files.get_full_main] *)
Definition get_full_main (self : Source_Files) : str :=
  fst (main self) ++ snd (main self).

(** [Source_Files.get_files]: [None] is Python's [None] *)
Definition get_files (self : Source_Files) (ext : str) : option str :=
  match files self !! strip ext with
  | Some fs => Some (fs_joined fs)
  | None =>
      if bool_decide (strip ext = u ".o") then Some (fs_joined (obj self))
      else None
  end.

Definition set_files (self : Source_Files) (f : gmap str FileSet)
  : Source_Files :=
  {| path := path self; files := f; main := main self; obj := obj self;
     total_files := total_files self + 1 |}.

Definition set_obj (self : Source_Files) (o : FileSet) : Source_Files :=
  {| path := path self; files := files self; main := main self; obj := o;
     total_files := total_files self |}.

Definition set_main (self : Source_Files) (m : str * str) : Source_Files :=
  {| path := path self; files := files self; main := m; obj := obj self;
     total_files := total_files self |}.

(** The first [if] of [add_file]: the file joins the bucket of its
    extension. *)
Definition add_to_bucket (self : Source_Files) (file : DirEntry) (ext : str)
  : Source_Files * result unit :=
  if bool_decide (is_Some (files self !! ext)) then
    match files self !! strip ext with
    | Some fs =>
        (set_files self
           (<[strip ext := fs_append fs (entry_name file)]> (files self)),
         Ok tt)
    | None => (self, Raise KeyError)
    end
  else (self, Ok tt).

(** The second [if] of [add_file]: a C or C++ file is searched for a main
    function.  [name] is [None] while the variable is unbound. *)
Definition scan_for_main (self : Source_Files) (file : DirEntry)
    (name : option str) (ext : str) : Source_Files * result unit :=
  if bool_decide (ext = u ".c") || bool_decide (ext = u ".cpp") then
    match entry_data file with
    | [] => (self, Raise ValueError)
    | mmap_reader =>
        let is_main := find mmap_reader (b "int main(") in
        if is_main =? -1 then
          match name with
          | Some name => (set_obj self (fs_append (obj self) (name ++ OBJ_SUF)), Ok tt)
          | None => (self, Raise UnboundLocalError)
          end
        else
          if negb (bool_decide (get_full_main self = [])) then
            (self, Raise (MultipleMainError (get_full_main self) (entry_name file)))
          else
            match name with
            | Some name => (set_main self (name, ext), Ok tt)
            | None => (self, Raise UnboundLocalError)
            end
    end
  else (self, Ok tt).

(** The first lines of [add_file]: [name] and [ext] from the file name.
    A name that does not split in two at its dots leaves [name] unbound
    ([None]) and sets [ext] to ['None']. *)
Definition split_name (file_name : str) : option str * str :=
  let split_filename := split DOT file_name in
  match split_filename with
  | [name; ext] => (Some name, u "." ++ strip ext)
  | _ => (None, u "None")
  end.

(** [Source_Files.add_file] *)
Definition add_file (self : Source_Files) (file : DirEntry)
  : Source_Files * result unit :=
  let '(name, ext) := split_name (entry_name file) in
  match add_to_bucket self file ext with
  | (self, Ok _) => scan_for_main self file name ext
  | (self, Raise e) => (self, Raise e)
  end.

(** The loop of [scan_files] over the entries of the directory. *)
Fixpoint scan_entries (sf : Source_Files) (entries : list DirEntry)
  : Source_Files * result unit :=
  match entries with
  | [] => (sf, Ok tt)
  | entry :: entries' =>
      if entry_is_file entry then
        match add_file sf entry with
        | (sf', Ok _) => scan_entries sf' entries'
        | (sf', Raise e) => (sf', Raise e)
        end
      else scan_entries sf entries'
  end.

(** [scan_files] *)
Definition scan_files (w : World) (sf : Source_Files)
  : Source_Files * result unit :=
  match os_scandir w (path sf) with
  | Some entries => scan_entries sf entries
  | None => (sf, Raise OSError)
  end.

(** ** The include scanner *)

(** The [while] loop of [find_includes]:
    [while m[start] != ord('#') or found_byte - start > 100: start -= 1].
    The index runs from [found_byte] downwards; a negative index reads
    from the end of the mapping and the index [- len m - 1] raises
    [IndexError].  The argument [k] is the index shifted by [len m + 1],
    so that the recursion is structural: [start = k - 1 - len m]. *)
Fixpoint walk_back (m : bytes) (found_byte : Z) (k : nat) : result Z :=
  match k with
  | O => Raise IndexError
  | S k' =>
      let preprocessor_start := Z.of_nat k' - len m in
      match getitem m preprocessor_start with
      | None => Raise IndexError
      | Some c =>
          if negb (bool_decide (c = HASH))
             || (100 <? found_byte - preprocessor_start)
          then walk_back m found_byte k'
          else Ok preprocessor_start
      end
  end.

(** The loop started at [preprocessor_start = found_byte]. *)
Definition find_preprocessor_start (m : bytes) (found_byte : Z) : result Z :=
  walk_back m found_byte (Z.to_nat (found_byte + len m + 1)).

(** The body of the [for] loop of [find_includes] for one header: whether
    the header is added to [includes]. *)
Definition check_header (m : bytes) (header : str) : result bool :=
  match encode_utf8 header with
  | None => Raise UnicodeEncodeError
  | Some needle =>
      let found_byte := find m needle in
      if found_byte =? -1 then Ok false
      else
        match find_preprocessor_start m found_byte with
        | Raise e => Raise e
        | Ok preprocessor_start =>
            match decode_utf8
                    (getslice m preprocessor_start
                       (preprocessor_start + len (u "include") + 1)) with
            | None => Raise UnicodeDecodeError
            | Some s => Ok (bool_decide (s = u "#include"))
            end
        end
  end.

(** The [for] loop of [find_includes]. *)
Fixpoint find_includes_loop (m : bytes) (headers : list str) (includes : str)
  : result str :=
  match headers with
  | [] => Ok includes
  | header :: headers' =>
      match check_header m header with
      | Raise e => Raise e
      | Ok true => find_includes_loop m headers' (includes ++ header ++ u " ")
      | Ok false => find_includes_loop m headers' includes
      end
  end.

(** [find_includes] *)
Definition find_includes (w : World) (sf : Source_Files) (filename : str)
  : result str :=
  match read_file (scandir w (path sf)) filename with
  | None => Raise FileNotFoundError
  | Some [] => Raise ValueError
  | Some mmap_reader =>
      match files sf !! u ".h" with
      | None => Raise KeyError
      | Some h => find_includes_loop mmap_reader (fs_list h) []
      end
  end.

(** ** The dependency resolver *)

(** [includes = find_includes(files, filename)]: the variable is bound
    to the value returned. *)
Definition assign_includes (r : result str) : result (option str) :=
  match r with
  | Ok includes => Ok (Some includes)
  | Raise e => Raise e
  end.

(** The [for] loop of [create_depend]; [includes] is [None] while the
    variable is unbound. *)
Fixpoint create_depend_loop (w : World) (sf : Source_Files)
    (objs : list str) (depends : str) (includes : option str) : result str :=
  match objs with
  | [] => Ok depends
  | filename :: objs' =>
      let depends := depends ++ filename ++ u ": " in
      let name_c := drop_last2 filename ++ u ".c" in
      let name_cpp := drop_last2 filename ++ u ".cpp" in
      let bound :=
        match files sf !! u ".c" with
        | None => Raise KeyError
        | Some c_files =>
            if str_in name_c (fs_list c_files) then
              assign_includes (find_includes w sf name_c)
            else
              match files sf !! u ".cpp" with
              | None => Raise KeyError
              | Some cpp_files =>
                  if str_in name_cpp (fs_list cpp_files) then
                    assign_includes (find_includes w sf name_cpp)
                  else Ok includes
              end
        end in
      match bound with
      | Raise e => Raise e
      | Ok None => Raise UnboundLocalError
      | Ok (Some includes) =>
          create_depend_loop w sf objs' (depends ++ includes ++ NL)
            (Some includes)
      end
  end.

(** [create_depend] *)
Definition create_depend (w : World) (sf : Source_Files) : result str :=
  create_depend_loop w sf (fs_list (obj sf)) [] None.

(** ** The emitter *)

Definition LIB_SUF : str := u ".a".
Definition ASSE_SUF_LOW : str := u ".s".
Definition VAR : str := u "$".

Definition COMMENT : str := u "#".
Definition SPACE : str := u " ".
Definition BEG_COMMENT : str := COMMENT ++ SPACE.
Definition END_COMMENT : str := SPACE ++ COMMENT.

Definition NAME_TARGET : str := VAR ++ u "@".
Definition FIR_PRE_REQ : str := VAR ++ u "<".
Definition FILE_STEM : str := VAR ++ u "*".
Definition WILDCARD : str := VAR ++ u "%".

Definition SUF_NAME : str := u ".SUFFIXES:".
Definition PREC_NAME : str := u ".PRECIOUS:".

Definition COMP : str := VAR ++ u "(COMPILE".
Definition CXX : str := VAR ++ u "(CXX)".
Definition CXXFLAGS : str := VAR ++ u "(CXXFLAGS)".

Definition CPP : str := VAR ++ u "(CPP)".
Definition CC : str := VAR ++ u "(CC)".
Definition CFLAGS : str := VAR ++ u "(CFLAGS)".
Definition CPPFLAGS : str := VAR ++ u "(CPPFLAGS)".
Definition LDFLAGS : str := VAR ++ u "(LDFLAGS)".

Definition CPP_FILES : str := VAR ++ u "(CPP_FILES)".
Definition C_FILES : str := VAR ++ u "(C_FILES)".
Definition S_FILES : str := VAR ++ u "(S_FILES)".
Definition H_FILES : str := VAR ++ u "(H_FILES)".
Definition SOURCE_FILES : str := VAR ++ u "(SOURCEFILES)".
Definition OBJ_FILES : str := VAR ++ u "(OBJFILES)".
Definition CLIBFLAGS : str := VAR ++ u "(CLIBFLAGS)".
Definition CCLIBFLAGS : str := VAR ++ u "(CCLIBFLAGS)".

Definition C_VAL : str := CC ++ u " " ++ CFLAGS ++ u " " ++ CPPFLAGS ++ u " ".
Definition CC_VAL : str :=
  CXX ++ u " " ++ CXXFLAGS ++ u " " ++ CPPFLAGS ++ u " ".
Definition CPP_VAL : str := CPP ++ u " " ++ CPPFLAGS ++ u " ".
Definition SOURCE_VAL : str :=
  H_FILES ++ u " " ++ CPP_FILES ++ u " " ++ C_FILES ++ u " " ++ S_FILES.

Definition AR : str := VAR ++ u "(AR)".
Definition AR_FLAG : str := VAR ++ u "(ARFLAGS)".
Definition RM : str := VAR ++ u "(RM)".

Definition OUTPUT : str := u "-o".
Definition COMPILE : str := u "-c".
Definition DEBUGGER : str := u "-ggdb".
Definition MATH_LIB : str := u "-lm".

(** [create_var] *)
Definition create_var (name val : str) : str :=
  name ++ u " =" ++ TAB ++ val ++ NL.

(** [create_var(name, files.get_files(ext))]: concatenating [None] raises
    [TypeError]. *)
Definition create_files_var (name : str) (val : option str) : result str :=
  match val with
  | Some val => Ok (create_var name val)
  | None => Raise TypeError
  end.

(** [create_header] *)
Definition create_header (msg : str) : str :=
  let length_msg := len msg in
  (BEG_COMMENT ++ str_mul length_msg COMMENT ++ END_COMMENT ++ NL)
  ++ (BEG_COMMENT ++ msg ++ END_COMMENT ++ NL)
  ++ (BEG_COMMENT ++ str_mul length_msg COMMENT ++ END_COMMENT ++ NL ++ NL).

(** [create_ender] *)
Definition create_ender (msg : str) : str :=
  u "# " ++ str_mul (len msg) (u "#") ++ u " #" ++ NL ++ NL.

(** The loop of [read_header] over the lines of [header.txt]. *)
Fixpoint read_flags (lines : list str) (flags : str) : str :=
  match lines with
  | [] => flags
  | line :: lines' =>
      let line := strip line in
      if negb (bool_decide (line = []))
      then read_flags lines' (flags ++ line ++ NL)
      else read_flags lines' flags
  end.

(** [read_header] *)
Definition read_header (w : World) (path : str) : str :=
  let '(header_msg, flags) :=
    match header_txt w (path ++ u "header.txt") with
    | Some lines => (u "Flags from 'header.txt'", read_flags lines [])
    | None =>
        (u "Default Flags (create your own with a 'header.txt' file)",
         (create_var (u "CXXFLAGS") DEBUGGER ++ create_var (u "CFLAGS") DEBUGGER)
         ++ (create_var (u "CLIBFLAGS") MATH_LIB
             ++ create_var (u "CCLIBFLAGS") []))
    end in
  let header := create_header header_msg in
  header ++ flags ++ NL ++ create_ender header_msg.

(** The suffix as the rules rewrite it: ['.cpp'], ['.C'] and ['.s']
    become ['.cc']. *)
Definition cc_suffix (suffix : str) : str :=
  if bool_decide (suffix = u ".cpp") || bool_decide (suffix = u ".C")
     || bool_decide (suffix = u ".s")
  then u ".cc" else suffix.

(** [s_rule] *)
Definition s_rule (suffix : str) : str :=
  let rule := suffix ++ ASSE_SUF_LOW ++ u ":" ++ NL ++ TAB in
  rule ++ CPP ++ u " " ++ OUTPUT ++ u " " ++ FILE_STEM ++ ASSE_SUF_LOW
       ++ u " " ++ FIR_PRE_REQ ++ NL.

(** [o_rule] *)
Definition o_rule (suffix : str) : str :=
  let rule := suffix ++ OBJ_SUF ++ u ":" ++ NL ++ TAB in
  let suffix := cc_suffix suffix in
  rule ++ COMP ++ suffix ++ u ") " ++ FIR_PRE_REQ ++ NL.

(** [a_rule] *)
Definition a_rule (suffix : str) : str :=
  let rule := suffix ++ LIB_SUF ++ u ":" ++ NL ++ TAB in
  let suffix := cc_suffix suffix in
  let rule := rule ++ COMP ++ suffix ++ u ") " ++ OUTPUT ++ u " " ++ WILDCARD
                   ++ u " " ++ FIR_PRE_REQ ++ NL ++ TAB in
  let rule := rule ++ AR ++ u " " ++ AR_FLAG ++ u " " ++ NAME_TARGET ++ u " "
                   ++ WILDCARD ++ NL ++ TAB in
  rule ++ RM ++ u " " ++ WILDCARD ++ NL.

(** The variables that [gather_files] emits once the scan is done. *)
Definition file_vars (sf : Source_Files) : result str :=
  match create_files_var (u "CPP_FILES") (get_files sf (u ".cpp")),
        create_files_var (u "C_FILES") (get_files sf (u ".c")),
        create_files_var (u "PS_FILES") (get_files sf (u ".ps")),
        create_files_var (u "S_FILES") (get_files sf (u ".s")),
        create_files_var (u "H_FILES") (get_files sf (u ".h")),
        create_files_var (u "OBJFILES") (get_files sf (u ".o")) with
  | Ok cpp_files, Ok c_files, Ok ps_files, Ok s_files, Ok h_files,
    Ok obj_files =>
      let source := create_var (u "SOURCEFILES") SOURCE_VAL in
      let precious := PREC_NAME ++ TAB ++ SOURCE_FILES ++ NL in
      Ok (cpp_files ++ c_files ++ ps_files ++ s_files ++ h_files
          ++ source ++ precious ++ obj_files)
  | _, _, _, _, _, _ => Raise TypeError
  end.

(** [gather_files] *)
Definition gather_files (w : World) (sf : Source_Files)
  : Source_Files * result str :=
  match scan_files w sf with
  | (sf, Raise e) => (sf, Raise e)
  | (sf, Ok _) => (sf, file_vars sf)
  end.

(** [create_definitions] *)
Definition create_definitions (w : World) (sf : Source_Files)
  : Source_Files * result str :=
  let definition :=
    SUF_NAME ++ NL ++ SUF_NAME ++ TAB ++ u ".a .o .c .C .cpp .s .S" ++ NL in
  let rules :=
    (o_rule (u ".c") ++ o_rule (u ".C") ++ o_rule (u ".cpp"))
    ++ (s_rule (u ".S") ++ o_rule (u ".s"))
    ++ (a_rule (u ".c") ++ a_rule (u ".C") ++ a_rule (u ".cpp") ++ NL) in
  let user_vars :=
    (create_var (u "CC") (u "gcc") ++ create_var (u "CXX") (u "g++") ++ NL)
    ++ (create_var (u "RM") (u "rm -f") ++ create_var (u "AR") (u "ar"))
    ++ (create_var (u "LINK.c") (C_VAL ++ LDFLAGS)
        ++ create_var (u "LINK.cc") (CC_VAL ++ LDFLAGS))
    ++ (create_var (u "COMPILE.c") (C_VAL ++ COMPILE)
        ++ create_var (u "COMPILE.cc") (CC_VAL ++ COMPILE))
    ++ (create_var (u "CPP") CPP_VAL ++ NL) in
  let header_mak := read_header w (path sf) ++ NL ++ NL in
  match gather_files w sf with
  | (sf, Raise e) => (sf, Raise e)
  | (sf, Ok source_vars) =>
      (sf, Ok (definition ++ rules ++ user_vars ++ header_mak ++ source_vars))
  end.

(** [create_target] *)
Definition create_target (sf : Source_Files) : str :=
  let file_head := fst (main sf) in
  let file_ext := snd (main sf) in
  let file_obj := fst (main sf) ++ OBJ_SUF in
  let '(lang, flag, libflag) :=
    if bool_decide (file_ext = u ".c") then (CC, CFLAGS, CLIBFLAGS)
    else (CXX, CXXFLAGS, CCLIBFLAGS) in
  let all_str := u "all:" ++ TAB ++ file_head ++ NL ++ NL in
  let target :=
    fst (main sf) ++ u ":" ++ TAB ++ file_obj ++ u " " ++ OBJ_FILES
    ++ NL ++ TAB in
  let target :=
    target ++ lang ++ u " " ++ flag ++ u " " ++ OUTPUT ++ u " " ++ file_head
           ++ u " " in
  let target :=
    target ++ file_obj ++ u " " ++ OBJ_FILES ++ u " " ++ libflag ++ NL ++ NL in
  all_str ++ target.

(** [create_misc] *)
Definition create_misc (sf : Source_Files) : str :=
  let file_head := fst (main sf) in
  let file_obj := fst (main sf) ++ OBJ_SUF in
  let clean := u "clean:" ++ NL ++ TAB in
  let clean :=
    clean ++ u "del -f " ++ OBJ_FILES ++ u " " ++ file_obj ++ u " "
          ++ u "core" ++ NL ++ NL in
  let realclean := u "realclean:" ++ TAB ++ u "clean" ++ NL ++ TAB in
  let realclean := realclean ++ u "del -f " ++ file_head ++ u ".exe" ++ NL in
  clean ++ realclean.

(** ** The main program *)

(** What a run leaves behind: the file written by [output_Makefile] with
    its content, or the exception that ended the run, in which case
    nothing is written. *)
Inductive outcome :=
| Written (file text : str)
| Aborted (e : exn).

(** [open(path + name, 'w')] succeeds: the file can be created or
    truncated, and the directory at [path] holds no entry of that name
    that is not a regular file (a sub-directory). *)
Definition can_write (w : World) (path name : str) : bool :=
  writable w (path ++ name)
  && negb (existsb (fun e => negb (entry_is_file e)
                             && bool_decide (entry_name e = name))
             (scandir w path)).

(** [output_Makefile]: [open] raises [OSError] when the file cannot be
    opened for writing. *)
Definition output_Makefile (w : World) (string path : str) : outcome :=
  if can_write w path (u "Makefile")
  then Written (path ++ u "Makefile") string
  else Aborted OSError.

#[global] Instance outcome_eq_decision : EqDecision outcome.
Proof. solve_decision. Defined.

(** The script run with [sys.argv[1:]] equal to [argv] (only the first
    argument is looked at). *)
Definition run (w : World) (argv : list str) : outcome :=
  match Source_Files_init w (head argv) with
  | Raise e => Aborted e
  | Ok sf =>
      let curr_time := localtime w in
      let file_header := create_header curr_time in
      let def_header := create_header (u "Definitions") in
      match create_definitions w sf with
      | (_, Raise e) => Aborted e
      | (sf, Ok def_section) =>
          let def_ender := create_ender (u "Definitions") in
          let def_total := def_header ++ def_section ++ def_ender in
          let target_header := create_header (u "Targets") in
          let target_section := create_target sf in
          let target_ender := create_ender (u "Targets") in
          let target_total := target_header ++ target_section ++ target_ender in
          let depend_header := create_header (u "Dependencies") in
          match create_depend w sf with
          | Raise e => Aborted e
          | Ok depend_section =>
              let depend_ender := create_ender (u "Dependencies") in
              let depend_total :=
                depend_header ++ depend_section ++ depend_ender in
              let misc_header := create_header (u "Miscellaneous") in
              let misc_section := create_misc sf in
              let misc_ender := create_ender (u "Miscellaneous") in
              let misc_total := misc_header ++ misc_section ++ misc_ender in
              output_Makefile w
                (file_header ++ def_total ++ target_total ++ depend_total
                 ++ misc_total)
                (path sf)
          end
      end
  end.

(** ** Predicates used in the statements *)

(** The keys of [self.files] are the five recognised extensions. *)
Definition EXTS : list str := [u ".c"; u ".cpp"; u ".ps"; u ".s"; u ".h"].

Definition std_keys (sf : Source_Files) : Prop :=
  dom (files sf) = (list_to_set EXTS : gset str).

(** The string that joins a list of names, each followed by one space. *)
Definition joined (l : list str) : str :=
  List.concat (List.map (fun x => x ++ u " ") l).

(** The three fields of a bucket agree. *)
Definition consistent (fs : FileSet) : Prop :=
  fs_joined fs = joined (fs_list fs) /\ fs_count fs = len (fs_list fs).

Definition buckets_consistent (sf : Source_Files) : Prop :=
  (forall (k : str) (fs : FileSet), files sf !! k = Some fs -> consistent fs)
  /\ consistent (obj sf).

(** A sequence of [add_file] calls on one object; a call that raises ends
    the sequence. *)
Fixpoint add_files (sf : Source_Files) (l : list DirEntry)
  : Source_Files * result unit :=
  match l with
  | [] => (sf, Ok tt)
  | file :: l' =>
      match add_file sf file with
      | (sf', Ok _) => add_files sf' l'
      | (sf', Raise e) => (sf', Raise e)
      end
  end.

(** The number of dots of a file name. *)
Definition count_dots (s : str) : nat :=
  length (List.filter (fun c => (c =? DOT)%N) s).

(** [sub] occurs in [m] at index [p]. *)
Definition occurs_at (sub m : bytes) (p : nat) : Prop :=
  firstn (length sub) (skipn p m) = sub.

(** The headers that a completed scan of [m] appends, in the order of
    [headers]. *)
Definition accepted (m : bytes) (headers : list str) : list str :=
  List.filter (fun h => bool_decide (check_header m h = Ok true)) headers.

(** The first occurrence of [needle] in [m] is at [p], and the nearest
    ['#'] at or before [p] is at [q]. *)
Definition first_match (m needle : bytes) (p q : nat) : Prop :=
  find m needle = Z.of_nat p /\ (q <= p)%nat /\ m !! q = Some HASH
  /\ Forall (fun c => c <> HASH) (take (p - q) (drop (S q) m)).


(** The extension that [add_file] computes for an entry is ['.c'] or
    ['.cpp']. *)
Definition c_or_cpp (file : DirEntry) : Prop :=
  (split_name (entry_name file)).2 = u ".c"
  \/ (split_name (entry_name file)).2 = u ".cpp".

(** The content of an entry holds the marker [int main(]. *)
Definition has_main (file : DirEntry) : Prop :=
  find (entry_data file) (b "int main(") <> -1.

(** An entry that the scan passes without registering a main file: a
    directory, a file of another extension, or a C or C++ file that is
    not empty and does not hold the marker. *)
Definition passes (file : DirEntry) : Prop :=
  entry_is_file file = true -> c_or_cpp file ->
  entry_data file <> [] /\ ~ has_main file.

(** The names of the headers of a directory in the order of the scan:
    the regular files for which [add_file] computes the extension
    ['.h']. *)
Definition is_header (file : DirEntry) : bool :=
  bool_decide ((split_name (entry_name file)).2 = u ".h").

Definition header_names (entries : list DirEntry) : list str :=
  List.map entry_name
    (List.filter is_header (List.filter entry_is_file entries)).

(** What [add_file] computes from the name of an entry: the stem
    ([name], empty while unbound) and the extension ([ext]). *)
Definition stem_of (file : DirEntry) : str :=
  default [] (split_name (entry_name file)).1.

Definition ext_of (file : DirEntry) : str :=
  (split_name (entry_name file)).2.

Definition is_c_or_cpp (file : DirEntry) : bool :=
  bool_decide (ext_of file = u ".c") || bool_decide (ext_of file = u ".cpp").

Definition holds_main (file : DirEntry) : bool :=
  negb (find (entry_data file) (b "int main(") =? -1).

(** The regular files of a directory whose extension is [k], by name and
    in the order of the scan. *)
Definition files_of_ext (k : str) (entries : list DirEntry) : list str :=
  List.map entry_name
    (List.filter (fun e => bool_decide (ext_of e = k))
       (List.filter entry_is_file entries)).

(** The object names of the C and C++ files without a main function, and
    the C and C++ files with one. *)
Definition unit_names (entries : list DirEntry) : list str :=
  List.map (fun e => stem_of e ++ OBJ_SUF)
    (List.filter (fun e => is_c_or_cpp e && negb (holds_main e))
       (List.filter entry_is_file entries)).

Definition main_files (entries : list DirEntry) : list DirEntry :=
  List.filter (fun e => is_c_or_cpp e && holds_main e)
    (List.filter entry_is_file entries).

(** The number of names held by the five extension buckets. *)
Definition bucket_size (sf : Source_Files) (k : str) : Z :=
  match files sf !! k with
  | Some fs => len (fs_list fs)
  | None => 0
  end.

Definition held (sf : Source_Files) : Z :=
  foldr Z.add 0 (List.map (bucket_size sf) EXTS).

(** A line of the dependency section. *)
Definition depend_line (filename includes : str) : str :=
  filename ++ u ": " ++ includes ++ NL.

(** The same world at another time. *)
Definition with_time (w : World) (t : str) : World :=
  {| getcwd := getcwd w; path_exists := path_exists w;
     os_scandir := os_scandir w; header_txt := header_txt w;
     writable := writable w; localtime := t |}.

(** ** Example inputs *)

(** A regular file with an ASCII name and content. *)
Definition file_entry (name content : string) : DirEntry :=
  {| entry_name := u name; entry_is_file := true; entry_data := b content |}.

(** A world in which the working directory [C:\proj] holds the entries
    [d] and no [header.txt], and in which files can be written. *)
Definition world_of (d : list DirEntry) : World :=
  {| getcwd := u "C:\proj";
     path_exists := fun _ => false;
     os_scandir :=
       fun p => if bool_decide (p = u "C:\proj\") then Some d else None;
     header_txt := fun _ => None;
     writable := fun _ => true;
     localtime := u "Wed Nov 04 10:00:00 2026" |}.

(** A directory whose only entry is a sub-directory named [Makefile]. *)
Definition dir_makefile_dir : list DirEntry :=
  [{| entry_name := u "Makefile"; entry_is_file := false;
      entry_data := [] |}].

(** The object that the script holds after [scan_files] in that world. *)
Definition proj_path : str := u "C:\proj\".

Definition scanned (d : list DirEntry) : Source_Files :=
  (scan_files (world_of d) (new_Source_Files proj_path)).1.

(** Two headers met in the order [b.h], [a.h] and a unit that includes
    [a.h] first. *)
Definition dir_two_headers : list DirEntry :=
  [file_entry "b.h" "x"; file_entry "a.h" "x";
   file_entry "u.c" "#include <a.h> #include <b.h>"].

(** The scenario of a main file, a unit and its header:
    [util.cpp] is [#include "util.h"], a newline and [void f(){}]. *)
Definition util_cpp : bytes :=
  b "#include " ++ [x22] ++ b "util.h" ++ [x22; x0a] ++ b "void f(){}".

Definition dir_util : list DirEntry :=
  [file_entry "main.cpp" "int main(){ ... }";
   {| entry_name := u "util.cpp"; entry_is_file := true;
      entry_data := util_cpp |};
   file_entry "util.h" "void f();"].

(** A unit that names the header [a.h] in a directive that is not an
    include, and then includes it. *)
Definition dir_define : list DirEntry :=
  [file_entry "a.h" "x"; file_entry "u.c" "#define a.h #include a.h"].

(** A unit that names the header [a.h] in a comment and holds no ['#']. *)
Definition dir_comment : list DirEntry :=
  [file_entry "a.h" "x"; file_entry "u.c" "/* see a.h */ void f(){}"].

(** A unit that names [a.h] in a comment before its first directive. *)
Definition dir_comment_first : list DirEntry :=
  [file_entry "a.h" "x"; file_entry "b.h" "x";
   file_entry "u.c" "/* a.h */ #include <b.h>"].

(** A unit whose extension is written with a space. *)
Definition dir_space_ext : list DirEntry :=
  [file_entry "foo. c" "void f(){}"].

(** The same unit after one whose source is found. *)
Definition dir_space_ext_second : list DirEntry :=
  [file_entry "a.h" "x"; file_entry "bar.c" "#include <a.h>";
   file_entry "foo. c" "void f(){}"].

(** Two files with a main function. *)
Definition dir_two_mains : list DirEntry :=
  [file_entry "b.c" "int main(){}"; file_entry "c.cpp" "int main(){}"].

(** Two files with a main function, met after an empty C file. *)
Definition dir_empty_first : list DirEntry :=
  [file_entry "a.c" ""; file_entry "b.c" "int main(){}";
   file_entry "c.c" "int main(){}"].

(** A directory with a sub-directory named like a C file, files of
    other extensions, a main file and two units. *)
Definition dir_mixed : list DirEntry :=
  [{| entry_name := u "old.c"; entry_is_file := false; entry_data := [] |};
   file_entry "notes.txt" ""; file_entry "util.h" "void f();";
   file_entry "main.c" "int main(){ f(); }";
   file_entry "util.c" "#include <util.h>";
   file_entry "Makefile" "all:"; file_entry "boot.S" "nop";
   file_entry "io.cpp" "void g(){}"].

(** A unit with a ['#'] 102 bytes before the name of the header. *)
Definition far_hash : bytes :=
  b "#" ++ List.repeat x78 101 ++ b "a.h".

(** That unit in a directory with two headers, [b.h] met first. *)
Definition dir_far_hash : list DirEntry :=
  [file_entry "b.h" "x"; file_entry "a.h" "x";
   {| entry_name := u "u.c"; entry_is_file := true;
      entry_data := far_hash |}].

(** A unit that names [a.h] in a comment and holds no ['#'], in a
    directory with two headers, [b.h] met first. *)
Definition dir_comment_second : list DirEntry :=
  [file_entry "b.h" "x"; file_entry "a.h" "x";
   file_entry "u.c" "/* see a.h */ void f(){}"].

(** A world whose directory holds a [header.txt] of three lines, the
    second one blank. *)
Definition world_flags : World :=
  {| getcwd := u "C:\proj";
     path_exists := fun _ => false;
     os_scandir := fun _ => Some [];
     header_txt := fun _ =>
       Some [u "CFLAGS = -O2" ++ NL; u "   " ++ NL;
             u "  CXXFLAGS = -O2  " ++ NL];
     writable := fun _ => true;
     localtime := u "Wed Nov 04 10:00:00 2026" |}.

(** ** Strings *)

Lemma lstrip_keep (z a : str) :
  lstrip a = a -> lstrip (lstrip z ++ a) = lstrip z ++ a.
Proof.
  intros Ha. induction z as [|c z IH]; simpl; [exact Ha|].
  destruct (is_space c) eqn:Hc; [exact IH|].
  simpl. now rewrite Hc.
Qed.

Lemma strip_dot_strip (x : str) :
  strip (u "." ++ strip x) = u "." ++ strip x.
Proof.
  change (u "." ++ strip x) with (DOT :: strip x).
  unfold strip at 1. change (lstrip (DOT :: strip x)) with (DOT :: strip x).
  unfold rstrip. change (rev (DOT :: strip x)) with (rev (strip x) ++ [DOT]).
  unfold strip, rstrip. rewrite rev_involutive.
  rewrite lstrip_keep by reflexivity.
  rewrite rev_app_distr. reflexivity.
Qed.

Lemma split_length (sep : N) (s : str) :
  length (split sep s)
  = S (length (List.filter (fun c => (c =? sep)%N) s)).
Proof.
  induction s as [|c s IH]; simpl; [reflexivity|].
  destruct (c =? sep)%N; simpl; [now rewrite IH|].
  destruct (split sep s); simpl in *; [discriminate|exact IH].
Qed.

Lemma split_name_cases (s : str) :
  split_name s = (None, u "None")
  \/ exists name x,
       split DOT s = [name; x]
       /\ split_name s = (Some name, u "." ++ strip x).
Proof.
  unfold split_name. destruct (split DOT s) as [|a [|c [|d l]]]; eauto.
Qed.

Lemma split_not_two (s : str) :
  count_dots s <> 1%nat -> split_name s = (None, u "None").
Proof.
  intros H. unfold split_name. pose proof (split_length DOT s) as Hl.
  fold (count_dots s) in Hl.
  destruct (split DOT s) as [|a [|c [|d l]]]; simpl in Hl; try reflexivity.
  lia.
Qed.

(** ** The file classifier *)

Lemma add_to_bucket_known sf file ext fs :
  files sf !! ext = Some fs -> strip ext = ext ->
  add_to_bucket sf file ext
  = (set_files sf (<[ext := fs_append fs (entry_name file)]> (files sf)),
     Ok tt).
Proof.
  intros Hk Hs. unfold add_to_bucket. rewrite Hs, Hk.
  rewrite bool_decide_eq_true_2 by eauto. reflexivity.
Qed.

Lemma add_to_bucket_unknown sf file ext :
  files sf !! ext = None -> add_to_bucket sf file ext = (sf, Ok tt).
Proof.
  intros Hk. unfold add_to_bucket. rewrite Hk.
  rewrite bool_decide_eq_false_2; [reflexivity|].
  intros [x Hx]; discriminate.
Qed.

Lemma scan_for_main_files sf file name ext :
  files (scan_for_main sf file name ext).1 = files sf.
Proof.
  unfold scan_for_main.
  repeat (case_match; simpl; try reflexivity).
Qed.

Lemma find_nil (sub : bytes) : sub <> [] -> find [] sub = -1.
Proof. destruct sub; [congruence|reflexivity]. Qed.

Lemma new_Source_Files_std_keys (p : str) : std_keys (new_Source_Files p).
Proof. vm_compute. reflexivity. Qed.

Lemma std_keys_lookup sf (k : str) :
  std_keys sf -> is_Some (files sf !! k) <-> k ∈ EXTS.
Proof.
  intros Hk. rewrite <- elem_of_dom, Hk. apply elem_of_list_to_set.
Qed.

Lemma add_file_split sf file name x :
  split DOT (entry_name file) = [name; x] ->
  add_file sf file
  = match add_to_bucket sf file (u "." ++ strip x) with
    | (sf', Ok _) => scan_for_main sf' file (Some name) (u "." ++ strip x)
    | (sf', Raise e) => (sf', Raise e)
    end.
Proof. intros H. unfold add_file, split_name. rewrite H. reflexivity. Qed.

(** A file of a recognised extension joins the bucket of that extension
    under its full name, whatever the second half of [add_file] does. *)
Lemma add_file_bucket sf file name x fs :
  split DOT (entry_name file) = [name; x] ->
  files sf !! (u "." ++ strip x) = Some fs ->
  files (add_file sf file).1
  = <[u "." ++ strip x := fs_append fs (entry_name file)]> (files sf).
Proof.
  intros Hs Hk. rewrite (add_file_split _ _ _ _ Hs).
  rewrite (add_to_bucket_known _ _ _ _ Hk (strip_dot_strip x)).
  rewrite scan_for_main_files. reflexivity.
Qed.

(** [add_file] keeps the keys of the dictionary. *)
Lemma add_file_std_keys sf file :
  std_keys sf -> std_keys (add_file sf file).1.
Proof.
  intros Hk. unfold add_file.
  destruct (split_name (entry_name file)) as [name ext].
  unfold add_to_bucket, std_keys.
  destruct (bool_decide (is_Some (files sf !! ext))) eqn:Hin.
  - destruct (files sf !! strip ext) as [fs|] eqn:Hl; [|exact Hk].
    rewrite scan_for_main_files. cbn [fst files set_files].
    rewrite dom_insert_L, <- Hk.
    apply subseteq_union_1_L, singleton_subseteq_l, elem_of_dom. eauto.
  - rewrite scan_for_main_files. exact Hk.
Qed.

Lemma add_files_std_keys l : forall sf,
  std_keys sf -> std_keys (add_files sf l).1.
Proof.
  induction l as [|file l IH]; intros sf Hk; simpl; [exact Hk|].
  pose proof (add_file_std_keys sf file Hk) as H.
  destruct (add_file sf file) as [sf' [[]|e]]; simpl in *; auto.
Qed.

Lemma joined_snoc (l : list str) (x : str) :
  joined (l ++ [x]) = joined l ++ x ++ u " ".
Proof.
  unfold joined. rewrite List.map_app, List.concat_app. simpl.
  now rewrite app_nil_r.
Qed.

Lemma fs_empty_consistent : consistent fs_empty.
Proof. split; reflexivity. Qed.

Lemma fs_append_consistent fs x :
  consistent fs -> consistent (fs_append fs x).
Proof.
  intros [Hj Hc]. split; simpl.
  - now rewrite joined_snoc, Hj.
  - unfold len in *. rewrite length_app. simpl. lia.
Qed.

Lemma new_Source_Files_consistent (p : str) :
  buckets_consistent (new_Source_Files p).
Proof.
  split; [|apply fs_empty_consistent].
  intros k fs. simpl. unfold init_files.
  rewrite !lookup_insert. repeat case_decide;
    try (intros [= <-]; apply fs_empty_consistent).
Qed.

Lemma add_to_bucket_consistent sf file ext :
  buckets_consistent sf -> buckets_consistent (add_to_bucket sf file ext).1.
Proof.
  intros [Hf Ho]. unfold add_to_bucket.
  destruct (bool_decide _); [|by split].
  destruct (files sf !! strip ext) as [fs|] eqn:Hl; [|by split].
  split; [|exact Ho]. intros k fs'. simpl.
  rewrite lookup_insert. case_decide.
  - intros [= <-]. apply fs_append_consistent. eauto.
  - apply Hf.
Qed.

Lemma scan_for_main_consistent sf file name ext :
  buckets_consistent sf ->
  buckets_consistent (scan_for_main sf file name ext).1.
Proof.
  intros [Hf Ho]. unfold scan_for_main.
  repeat (case_match; simpl; try (by split)).
  split; [exact Hf|]. by apply fs_append_consistent.
Qed.

Lemma add_file_consistent sf file :
  buckets_consistent sf -> buckets_consistent (add_file sf file).1.
Proof.
  intros H. unfold add_file.
  destruct (split_name (entry_name file)) as [name ext].
  pose proof (add_to_bucket_consistent sf file ext H) as H1.
  destruct (add_to_bucket sf file ext) as [sf1 [[]|e]]; simpl in *;
    [by apply scan_for_main_consistent|exact H1].
Qed.

Lemma add_files_preserve (P : Source_Files -> Prop) :
  (forall sf file, P sf -> P (add_file sf file).1) ->
  forall l sf, P sf -> P (add_files sf l).1.
Proof.
  intros Hstep. induction l as [|file l IH]; intros sf H; simpl; [exact H|].
  pose proof (Hstep sf file H) as H1.
  destruct (add_file sf file) as [sf' [[]|e]]; simpl in *; auto.
Qed.

(** [scan_files] is such a sequence: the calls of [add_file] on the
    regular files of the directory. *)
Lemma scan_entries_add_files entries : forall sf,
  scan_entries sf entries
  = add_files sf (List.filter entry_is_file entries).
Proof.
  induction entries as [|e l IH]; intros sf; simpl; [reflexivity|].
  destruct (entry_is_file e); simpl; [|apply IH].
  destruct (add_file sf e) as [sf' [[]|x]]; [apply IH|reflexivity].
Qed.

(** A scan that returns has listed the directory and called [add_file]
    on its regular files. *)
Lemma scan_files_ok w sf sf' :
  scan_files w sf = (sf', Ok tt) ->
  add_files sf (List.filter entry_is_file (scandir w (path sf)))
  = (sf', Ok tt).
Proof.
  unfold scan_files, scandir.
  destruct (os_scandir w (path sf)); [|discriminate].
  cbn [default from_option id]. now rewrite scan_entries_add_files.
Qed.

Lemma scan_files_preserve (P : Source_Files -> Prop) :
  (forall sf file, P sf -> P (add_file sf file).1) ->
  forall w sf, P sf -> P (scan_files w sf).1.
Proof.
  intros Hstep w sf H. unfold scan_files.
  destruct (os_scandir w (path sf)); [|exact H].
  rewrite scan_entries_add_files. now apply add_files_preserve.
Qed.

Lemma scandir_listed w (p : str) (l : list DirEntry) :
  scandir w p = l -> l <> [] -> os_scandir w p = Some l.
Proof.
  unfold scandir. destruct (os_scandir w p); cbn [default from_option id];
    congruence.
Qed.

(** C9.  After any sequence of [add_file] calls on a new [Source_Files]
    object, whether the last call returned or raised, every extension
    bucket and the object bucket are consistent: the joined string is the
    concatenation of the elements of the list, each followed by one
    space, and the count is the length of the list. *)
Theorem add_files_consistent (p : str) (l : list DirEntry) :
  buckets_consistent (add_files (new_Source_Files p) l).1.
Proof.
  apply (add_files_preserve buckets_consistent).
  - apply add_file_consistent.
  - apply new_Source_Files_consistent.
Qed.

(** C8.  A directory entry whose name has no dot or more than one dot is
    dropped by [add_file]: it joins no bucket, its content is not mapped
    or searched (an empty file raises nothing), the object is left as it
    was and the call returns normally. *)
Theorem add_file_dots_ignored (sf : Source_Files) (file : DirEntry) :
  std_keys sf ->
  count_dots (entry_name file) <> 1%nat ->
  add_file sf file = (sf, Ok tt).
Proof.
  intros Hk Hd. unfold add_file. rewrite (split_not_two _ Hd).
  rewrite add_to_bucket_unknown; [reflexivity|].
  apply eq_None_not_Some. rewrite (std_keys_lookup _ _ Hk).
  unfold EXTS. rewrite !elem_of_cons, elem_of_nil.
  intros H; vm_compute in H; intuition discriminate.
Qed.

Lemma add_file_dots_ignored_witness :
  add_file (new_Source_Files []) (file_entry "foo.bar.cpp" "int main(")
  = (new_Source_Files [], Ok tt).
Proof.
  apply add_file_dots_ignored.
  - vm_compute. reflexivity.
  - vm_compute. lia.
Defined.

(** C6, as stated, fails: the file [util.h] joins the bucket ['.h'] as
    [util.h], not as its stem [util]. *)
Lemma add_file_appends_stem_counterexample :
  split DOT (u "util.h") = [u "util"; u "h"]
  /\ fs_list <$> (files (add_file (new_Source_Files [])
                             (file_entry "util.h" "")).1 !! u ".h")
     = Some [u "util.h"]
  /\ [u "util.h"] <> [u "util"].
Proof. repeat split; by vm_compute. Qed.

(** C6, amended.  A directory entry whose name has one dot and whose
    extension (a dot followed by the stripped second half of the name) is
    a key of the dictionary is appended under its full name, extension
    included, to the bucket of that extension: list, joined string and
    count together.  The other buckets are left as they were. *)
Theorem add_file_appends_name (sf : Source_Files) (file : DirEntry)
    (name x : str) (fs : FileSet) :
  split DOT (entry_name file) = [name; x] ->
  files sf !! (u "." ++ strip x) = Some fs ->
  files (add_file sf file).1 !! (u "." ++ strip x)
  = Some {| fs_list := fs_list fs ++ [entry_name file];
            fs_joined := fs_joined fs ++ entry_name file ++ u " ";
            fs_count := fs_count fs + 1 |}
  /\ forall k : str, k <> u "." ++ strip x ->
       files (add_file sf file).1 !! k = files sf !! k.
Proof.
  intros Hs Hk. rewrite (add_file_bucket _ _ _ _ _ Hs Hk). split.
  - apply lookup_insert_eq.
  - intros k Hne. by apply lookup_insert_ne.
Qed.

Lemma add_file_appends_name_witness :
  files (add_file (new_Source_Files []) (file_entry "util.h" "")).1 !! u ".h"
  = Some {| fs_list := [u "util.h"]; fs_joined := u "util.h ";
            fs_count := 1 |}.
Proof.
  apply (add_file_appends_name (new_Source_Files [])
           (file_entry "util.h" "") (u "util") (u "h") fs_empty).
  - vm_compute. reflexivity.
  - vm_compute. reflexivity.
Defined.

(** The call of [add_file] on a C or C++ file that holds the marker, by
    whether a main file is registered already. *)
Lemma add_file_with_main sf file name x fs :
  split DOT (entry_name file) = [name; x] ->
  u "." ++ strip x = u ".c" \/ u "." ++ strip x = u ".cpp" ->
  files sf !! (u "." ++ strip x) = Some fs ->
  find (entry_data file) (b "int main(") <> -1 ->
  let sf1 :=
    set_files sf
      (<[u "." ++ strip x := fs_append fs (entry_name file)]> (files sf)) in
  add_file sf file
  = if negb (bool_decide (get_full_main sf = [])) then
      (sf1, Raise (MultipleMainError (get_full_main sf) (entry_name file)))
    else (set_main sf1 (name, u "." ++ strip x), Ok tt).
Proof.
  intros Hs Hext Hk Hfind sf1.
  rewrite (add_file_split _ _ _ _ Hs).
  rewrite (add_to_bucket_known _ _ _ _ Hk (strip_dot_strip x)).
  unfold scan_for_main.
  assert (He : bool_decide (u "." ++ strip x = u ".c")
               || bool_decide (u "." ++ strip x = u ".cpp") = true).
  { destruct Hext as [->| ->]; reflexivity. }
  rewrite He.
  destruct (entry_data file) as [|c m] eqn:Hd.
  { exfalso. apply Hfind. reflexivity. }
  apply Z.eqb_neq in Hfind. rewrite Hfind. reflexivity.
Qed.

Lemma add_file_registers_main sf file name x fs :
  split DOT (entry_name file) = [name; x] ->
  u "." ++ strip x = u ".c" \/ u "." ++ strip x = u ".cpp" ->
  files sf !! (u "." ++ strip x) = Some fs ->
  find (entry_data file) (b "int main(") <> -1 ->
  get_full_main sf = [] ->
  add_file sf file
  = (set_main (set_files sf
       (<[u "." ++ strip x := fs_append fs (entry_name file)]> (files sf)))
       (name, u "." ++ strip x), Ok tt).
Proof.
  intros Hs Hext Hk Hfind Hmain.
  rewrite (add_file_with_main _ _ _ _ _ Hs Hext Hk Hfind), Hmain.
  reflexivity.
Qed.

(** C10.  A C or C++ file that holds the marker [int main(], met while no
    main file is registered, is appended to the bucket of its extension
    (and so to the string that [get_files] returns for [C_FILES] or
    [CPP_FILES]) and becomes the main file; the object bucket is left as
    it was. *)
Theorem add_file_main_in_bucket (sf : Source_Files) (file : DirEntry)
    (name x : str) (fs : FileSet) :
  split DOT (entry_name file) = [name; x] ->
  u "." ++ strip x = u ".c" \/ u "." ++ strip x = u ".cpp" ->
  files sf !! (u "." ++ strip x) = Some fs ->
  find (entry_data file) (b "int main(") <> -1 ->
  get_full_main sf = [] ->
  let sf' := (add_file sf file).1 in
  (add_file sf file).2 = Ok tt
  /\ files sf' !! (u "." ++ strip x) = Some (fs_append fs (entry_name file))
  /\ get_files sf' (u "." ++ strip x)
     = Some (fs_joined fs ++ entry_name file ++ u " ")
  /\ main sf' = (name, u "." ++ strip x)
  /\ obj sf' = obj sf.
Proof.
  intros Hs Hext Hk Hfind Hmain sf'.
  assert (Hb : files sf' !! (u "." ++ strip x)
               = Some (fs_append fs (entry_name file))).
  { unfold sf'. rewrite (add_file_bucket _ _ _ _ _ Hs Hk).
    apply lookup_insert_eq. }
  assert (Hg : get_files sf' (u "." ++ strip x)
               = Some (fs_joined fs ++ entry_name file ++ u " ")).
  { unfold get_files. rewrite strip_dot_strip, Hb. reflexivity. }
  pose proof (add_file_registers_main _ _ _ _ _ Hs Hext Hk Hfind Hmain)
    as Hrun.
  unfold sf' in *. rewrite Hrun in *. simpl. auto.
Qed.

Lemma add_file_main_in_bucket_witness :
  let sf' := (add_file (new_Source_Files []) (file_entry "main.cpp" "int main(){}")).1 in
  get_files sf' (u ".cpp") = Some (u "main.cpp ")
  /\ main sf' = (u "main", u ".cpp")
  /\ obj sf' = fs_empty.
Proof.
  destruct (add_file_main_in_bucket (new_Source_Files [])
              (file_entry "main.cpp" "int main(){}") (u "main") (u "cpp")
              fs_empty) as (_ & _ & Hg & Hm & Ho).
  - vm_compute. reflexivity.
  - right. vm_compute. reflexivity.
  - vm_compute. reflexivity.
  - vm_compute. discriminate.
  - vm_compute. reflexivity.
  - exact (conj Hg (conj Hm Ho)).
Defined.

(** ** The include scanner *)

Lemma joined_cons (h : str) (l : list str) :
  joined (h :: l) = h ++ u " " ++ joined l.
Proof. unfold joined. simpl. now rewrite <- app_assoc. Qed.

Lemma accepted_cons m h hs :
  accepted m (h :: hs)
  = if bool_decide (check_header m h = Ok true)
    then h :: accepted m hs else accepted m hs.
Proof. reflexivity. Qed.

(** A scan that completes returns the accepted headers, joined. *)
Lemma find_includes_loop_accepted m hs : forall includes res,
  find_includes_loop m hs includes = Ok res ->
  res = includes ++ joined (accepted m hs).
Proof.
  induction hs as [|h hs IH]; intros includes res; cbn [find_includes_loop].
  - intros [= <-]. unfold joined. simpl. now rewrite app_nil_r.
  - rewrite accepted_cons.
    destruct (check_header m h) as [[|]|e] eqn:Hc; [| |discriminate].
    + rewrite bool_decide_eq_true_2 by reflexivity. intros H.
      apply IH in H. rewrite H, joined_cons. now rewrite <- !app_assoc.
    + rewrite bool_decide_eq_false_2 by discriminate. apply IH.
Qed.

(** The scan completes when no header makes the body of the loop raise. *)
Lemma find_includes_loop_returns m hs : forall includes,
  Forall (fun h => exists r, check_header m h = Ok r) hs ->
  find_includes_loop m hs includes
  = Ok (includes ++ joined (accepted m hs)).
Proof.
  induction hs as [|h hs IH]; intros includes Hall;
    cbn [find_includes_loop].
  - unfold joined. simpl. now rewrite app_nil_r.
  - apply Forall_cons in Hall as [[r Hr] Hall]. rewrite accepted_cons, Hr.
    destruct r.
    + rewrite bool_decide_eq_true_2 by reflexivity.
      rewrite (IH _ Hall), joined_cons. now rewrite <- !app_assoc.
    + rewrite bool_decide_eq_false_2 by discriminate. apply (IH _ Hall).
Qed.

Lemma filter_sublist {A} (f : A -> bool) (l : list A) :
  List.filter f l `sublist_of` l.
Proof.
  induction l as [|x l IH]; simpl; [constructor|].
  destruct (f x); now constructor.
Qed.

Lemma find_includes_inv w sf filename res :
  find_includes w sf filename = Ok res ->
  exists m h,
    read_file (scandir w (path sf)) filename = Some m /\ m <> []
    /\ files sf !! u ".h" = Some h
    /\ res = joined (accepted m (fs_list h)).
Proof.
  unfold find_includes. intros H.
  destruct (read_file _ _) as [[|c m]|]; try discriminate.
  destruct (files sf !! u ".h") as [h|]; try discriminate.
  exists (c :: m), h. repeat split; [discriminate|].
  now apply find_includes_loop_accepted in H.
Qed.

(** *** The order of the header bucket *)

Lemma split_name_ext_strip (s : str) :
  strip (split_name s).2 = (split_name s).2.
Proof.
  destruct (split_name_cases s) as [->|(name & x & _ & ->)];
    [reflexivity|apply strip_dot_strip].
Qed.

(** The dictionary after [add_file], whether the call returns or raises. *)
Lemma add_file_files sf file :
  files (add_file sf file).1
  = match files sf !! (split_name (entry_name file)).2 with
    | Some fs =>
        <[(split_name (entry_name file)).2 := fs_append fs (entry_name file)]>
          (files sf)
    | None => files sf
    end.
Proof.
  unfold add_file.
  pose proof (split_name_ext_strip (entry_name file)) as Hs.
  destruct (split_name (entry_name file)) as [name ext]. cbn [snd] in *.
  destruct (files sf !! ext) as [fs|] eqn:Hl.
  - rewrite (add_to_bucket_known _ _ _ _ Hl Hs). apply scan_for_main_files.
  - rewrite (add_to_bucket_unknown _ _ _ Hl). apply scan_for_main_files.
Qed.

Lemma add_file_h_bucket sf file h :
  files sf !! u ".h" = Some h ->
  files (add_file sf file).1 !! u ".h"
  = Some (if is_header file then fs_append h (entry_name file) else h).
Proof.
  intros Hh. rewrite add_file_files. unfold is_header.
  destruct (decide ((split_name (entry_name file)).2 = u ".h")) as [He|He].
  - rewrite bool_decide_eq_true_2 by exact He.
    rewrite He, Hh. apply lookup_insert_eq.
  - rewrite bool_decide_eq_false_2 by exact He.
    destruct (files sf !! (split_name (entry_name file)).2); [|exact Hh].
    rewrite lookup_insert_ne by exact He. exact Hh.
Qed.

Lemma add_files_h_bucket l : forall sf sf' h,
  files sf !! u ".h" = Some h ->
  add_files sf l = (sf', Ok tt) ->
  exists h',
    files sf' !! u ".h" = Some h'
    /\ fs_list h'
       = fs_list h ++ List.map entry_name (List.filter is_header l).
Proof.
  induction l as [|e l IH]; intros sf sf' h Hh Hrun; cbn [add_files] in Hrun.
  - injection Hrun as <-. exists h. split; [exact Hh|].
    simpl. now rewrite app_nil_r.
  - pose proof (add_file_h_bucket sf e h Hh) as Hh1.
    destruct (add_file sf e) as [sf1 [[]|x]]; [|discriminate].
    cbn [fst] in Hh1.
    destruct (IH _ _ _ Hh1 Hrun) as (h' & Hh' & Hl).
    exists h'. split; [exact Hh'|]. rewrite Hl. simpl.
    destruct (is_header e); simpl; [|reflexivity].
    now rewrite <- app_assoc.
Qed.

(** After a scan that returns, the ['.h'] bucket lists the headers of
    the directory in the order in which [os.scandir] gave them. *)
Lemma scan_files_h_bucket w p sf :
  scan_files w (new_Source_Files p) = (sf, Ok tt) ->
  exists h,
    files sf !! u ".h" = Some h /\ fs_list h = header_names (scandir w p).
Proof.
  intros Hrun. apply scan_files_ok in Hrun.
  cbn [path new_Source_Files] in Hrun.
  apply (add_files_h_bucket _ _ _ fs_empty) in Hrun; [|reflexivity].
  exact Hrun.
Qed.

(** C7.  The dependency list that [find_includes] returns for a unit
    holds headers in the order in which the scan of the directory met
    them, which is the order of the ['.h'] bucket, and not in
    alphabetical order: it is the joined string of a sublist of the
    header names of the directory. *)
Theorem find_includes_discovery_order (w : World) (p : str)
    (sf : Source_Files) (filename res : str) :
  scan_files w (new_Source_Files p) = (sf, Ok tt) ->
  find_includes w sf filename = Ok res ->
  fs_list <$> (files sf !! u ".h") = Some (header_names (scandir w p))
  /\ exists deps : list str,
       deps `sublist_of` header_names (scandir w p) /\ res = joined deps.
Proof.
  intros Hscan Hres.
  destruct (scan_files_h_bucket _ _ _ Hscan) as (h & Hh & Hl).
  destruct (find_includes_inv _ _ _ _ Hres) as (m & h' & _ & _ & Hh' & ->).
  rewrite Hh in Hh'. injection Hh' as <-.
  rewrite Hh. simpl. rewrite <- Hl. split; [reflexivity|].
  exists (accepted m (fs_list h)). split; [apply filter_sublist|reflexivity].
Qed.

Lemma find_includes_discovery_order_witness :
  fs_list <$> (files (scanned dir_two_headers) !! u ".h")
  = Some [u "b.h"; u "a.h"]
  /\ exists deps : list str,
       deps `sublist_of` [u "b.h"; u "a.h"] /\ u "b.h a.h " = joined deps.
Proof.
  apply (find_includes_discovery_order (world_of dir_two_headers) proj_path
           (scanned dir_two_headers) (u "u.c") (u "b.h a.h ")).
  - vm_compute. reflexivity.
  - vm_compute. reflexivity.
Defined.

(** *** The first occurrence *)

Lemma starts_with_take (sub l : bytes) :
  starts_with sub l = true <-> take (length sub) l = sub.
Proof.
  revert l. induction sub as [|x sub IH]; intros l; simpl.
  - now rewrite take_0.
  - destruct l as [|y l]; simpl; [split; discriminate|].
    rewrite andb_true_iff, bool_decide_eq_true, IH.
    split; [intros [-> ->]; reflexivity|intros [= -> ->]; auto].
Qed.

Lemma find_from_first (sub m : bytes) : forall pos r,
  find_from pos m sub = r -> r <> -1 -> 0 <= pos ->
  exists n : nat,
    r = pos + Z.of_nat n /\ (n <= length m)%nat
    /\ (m <> [] -> (n < length m)%nat)
    /\ starts_with sub (drop n m) = true
    /\ forall i : nat, (i < n)%nat -> starts_with sub (drop i m) = false.
Proof.
  induction m as [|c m IH]; intros pos r Hr Hne Hpos; cbn [find_from] in Hr.
  - destruct (starts_with sub []) eqn:Hs; [|congruence].
    exists 0%nat. repeat split; try lia; [congruence|exact Hs].
  - destruct (starts_with sub (c :: m)) eqn:Hs.
    + exists 0%nat. simpl. repeat split; try lia. exact Hs.
    + destruct (IH _ _ Hr Hne ltac:(lia)) as (n & -> & Hle & Hlt & Hn & Hmin).
      exists (S n). simpl. repeat split; try lia.
      * intros _. destruct m as [|c' m']; [|specialize (Hlt ltac:(discriminate)); simpl in *; lia].
        destruct n; [|simpl in Hle; lia]. simpl in Hn.
        destruct sub; [discriminate Hs|discriminate Hn].
      * exact Hn.
      * intros [|i] Hi; [exact Hs|]. apply Hmin. lia.
Qed.

(** [find] returns the index of the first occurrence. *)
Lemma find_first (m sub : bytes) (p : nat) :
  find m sub = Z.of_nat p ->
  occurs_at sub m p
  /\ (m <> [] -> (p < length m)%nat)
  /\ forall i : nat, (i < p)%nat -> ~ occurs_at sub m i.
Proof.
  intros H.
  destruct (find_from_first sub m 0 _ H ltac:(lia) ltac:(lia))
    as (n & Hn & _ & Hlt & Hs & Hmin).
  assert (n = p) as -> by lia.
  unfold occurs_at. split; [now apply starts_with_take|].
  split; [exact Hlt|].
  intros i Hi Ho. apply starts_with_take in Ho.
  rewrite (Hmin i Hi) in Ho. discriminate.
Qed.

(** *** The backward walk *)

Lemma getitem_nat (m : bytes) (i : nat) :
  (i < length m)%nat -> getitem m (Z.of_nat i) = m !! i.
Proof.
  intros Hi. unfold getitem, len.
  replace (Z.of_nat i <? 0) with false by (symmetry; apply Z.ltb_ge; lia).
  replace (Z.of_nat i <? 0) with false by (symmetry; apply Z.ltb_ge; lia).
  replace (Z.of_nat (length m) <=? Z.of_nat i) with false
    by (symmetry; apply Z.leb_gt; lia).
  simpl. now rewrite Nat2Z.id.
Qed.

(** The equation of the [while] loop, read on the index itself: at the
    index [i] the loop raises, goes on at [i - 1] or stops at [i]. *)
Lemma walk_back_loop (m : bytes) (found i : Z) :
  - len m <= i ->
  walk_back m found (Z.to_nat (i + len m + 1))
  = match getitem m i with
    | None => Raise IndexError
    | Some c =>
        if negb (bool_decide (c = HASH)) || (100 <? found - i)
        then walk_back m found (Z.to_nat (i - 1 + len m + 1))
        else Ok i
    end.
Proof.
  intros Hi.
  replace (Z.to_nat (i + len m + 1)) with (S (Z.to_nat (i + len m)))
    by (unfold len in *; lia).
  cbn [walk_back].
  replace (Z.of_nat (Z.to_nat (i + len m)) - len m) with i
    by (unfold len in *; lia).
  replace (Z.to_nat (i - 1 + len m + 1)) with (Z.to_nat (i + len m))
    by (unfold len in *; lia).
  reflexivity.
Qed.

(** One turn of the loop at the index [i] of the mapping. *)
Lemma walk_back_step (m : bytes) (found : Z) (i : nat) (c : byte) :
  m !! i = Some c ->
  walk_back m found (S (i + length m))
  = if negb (bool_decide (c = HASH)) || (100 <? found - Z.of_nat i)
    then walk_back m found (i + length m)
    else Ok (Z.of_nat i).
Proof.
  intros Hc. cbn [walk_back].
  replace (Z.of_nat (i + length m) - len m) with (Z.of_nat i)
    by (unfold len; lia).
  rewrite getitem_nat by (eapply lookup_lt_Some; eauto).
  now rewrite Hc.
Qed.

(** The loop walks over the bytes that are not ['#']. *)
Lemma walk_back_skip (m : bytes) (found : Z) (q : nat) : forall n : nat,
  (S q + n <= length m)%nat ->
  Forall (fun c => c <> HASH) (take n (drop (S q) m)) ->
  walk_back m found (S (q + n + length m))
  = walk_back m found (S (q + length m)).
Proof.
  induction n as [|n IH]; intros Hlen Hall.
  - now rewrite Nat.add_0_r.
  - destruct (lookup_lt_is_Some_2 m (q + S n)%nat ltac:(lia)) as [c Hc].
    rewrite (walk_back_step _ _ _ _ Hc).
    assert (Hne : c <> HASH).
    { rewrite Forall_lookup in Hall. apply (Hall n).
      rewrite lookup_take_lt by lia. rewrite lookup_drop.
      rewrite <- Hc. f_equal. lia. }
    rewrite bool_decide_eq_false_2 by exact Hne. simpl.
    replace (q + S n + length m)%nat with (S (q + n + length m)) by lia.
    apply IH; [lia|].
    rewrite Forall_lookup in *. intros i x Hx. apply (Hall i x).
    apply lookup_take_Some in Hx as [Hx Hi].
    rewrite lookup_take_lt by lia. exact Hx.
Qed.

(** Once the walk is more than 100 bytes from the match it never stops:
    it runs off the mapping and raises. *)
Lemma walk_back_far (m : bytes) (found : Z) : forall k : nat,
  100 <= found - (Z.of_nat k - len m) ->
  walk_back m found k = Raise IndexError.
Proof.
  induction k as [|k IH]; intros Hfar; cbn [walk_back]; [reflexivity|].
  destruct (getitem m (Z.of_nat k - len m)) as [c|]; [|reflexivity].
  replace (100 <? found - (Z.of_nat k - len m)) with true
    by (symmetry; apply Z.ltb_lt; lia).
  rewrite orb_true_r. apply IH. lia.
Qed.

(** A mapping without any ['#'] makes the walk raise. *)
Lemma walk_back_no_hash (m : bytes) (found : Z) : forall k : nat,
  HASH ∉ m -> walk_back m found k = Raise IndexError.
Proof.
  intros k Hno. induction k as [|k IH]; cbn [walk_back]; [reflexivity|].
  destruct (getitem m (Z.of_nat k - len m)) as [c|] eqn:Hc; [|reflexivity].
  rewrite bool_decide_eq_false_2; [exact IH|].
  intros ->. apply Hno. unfold getitem in Hc.
  destruct (_ || _); [discriminate|].
  eapply list_elem_of_lookup_2; eauto.
Qed.

(** The walk from a match at [p] whose nearest ['#'] at or before it is
    at [q]. *)
Lemma find_preprocessor_start_nearest (m : bytes) (p q : nat) :
  (q <= p)%nat -> (p < length m)%nat ->
  m !! q = Some HASH ->
  Forall (fun c => c <> HASH) (take (p - q) (drop (S q) m)) ->
  find_preprocessor_start m (Z.of_nat p)
  = if 100 <? Z.of_nat p - Z.of_nat q then Raise IndexError
    else Ok (Z.of_nat q).
Proof.
  intros Hqp Hp Hq Hall. unfold find_preprocessor_start.
  replace (Z.to_nat (Z.of_nat p + len m + 1))
    with (S (q + (p - q) + length m)) by (unfold len; lia).
  rewrite walk_back_skip by (auto; lia).
  rewrite (walk_back_step _ _ _ _ Hq).
  rewrite bool_decide_eq_true_2 by reflexivity. simpl.
  destruct (100 <? Z.of_nat p - Z.of_nat q) eqn:Hd; [|reflexivity].
  apply walk_back_far. apply Z.ltb_lt in Hd. unfold len. lia.
Qed.

Lemma getslice_nat (m : bytes) (q n : nat) :
  (q <= length m)%nat ->
  getslice m (Z.of_nat q) (Z.of_nat q + Z.of_nat n) = take n (drop q m).
Proof.
  intros Hq. unfold getslice, adjust_index, len.
  replace (Z.of_nat q <? 0) with false by (symmetry; apply Z.ltb_ge; lia).
  replace (Z.of_nat q + Z.of_nat n <? 0) with false
    by (symmetry; apply Z.ltb_ge; lia).
  rewrite (Z.min_l (Z.of_nat q)) by lia. rewrite Nat2Z.id.
  destruct (Z.min_spec (Z.of_nat q + Z.of_nat n) (Z.of_nat (length m)))
    as [[Hlt ->]|[Hge ->]].
  - f_equal. lia.
  - rewrite !take_ge; [reflexivity| |]; rewrite length_drop; lia.
Qed.

(** *** Decoding the directive *)

(** Boolean tests on [N] in the hypotheses, as propositions. *)
Ltac unbool :=
  repeat match goal with
    | H : _ && _ = true |- _ => apply andb_true_iff in H as [? ?]
    | H : _ && _ = false |- _ => apply andb_false_iff in H as [?|?]
    | H : negb _ = true |- _ => apply negb_true_iff in H
    | H : (_ <=? _)%N = true |- _ => apply N.leb_le in H
    | H : (_ <=? _)%N = false |- _ => apply N.leb_gt in H
    | H : (_ <? _)%N = true |- _ => apply N.ltb_lt in H
    | H : (_ <? _)%N = false |- _ => apply N.ltb_ge in H
    | H : (_ =? _)%N = true |- _ => apply N.eqb_eq in H
    | H : (_ =? _)%N = false |- _ => apply N.eqb_neq in H
    end.

(** The decoder does not depend on its fuel once there is one unit of it
    for each byte: [decode_utf8] never stops for lack of fuel. *)
Lemma decode_utf8_fuel_enough : forall (fuel1 fuel2 : nat) (ns : list N),
  (length ns <= fuel1)%nat -> (length ns <= fuel2)%nat ->
  decode_utf8_fuel fuel1 ns = decode_utf8_fuel fuel2 ns.
Proof.
  induction fuel1 as [|fuel1 IH]; intros fuel2 ns H1 H2.
  - destruct ns; [|simpl in H1; lia]. now destruct fuel2.
  - destruct ns as [|b1 r1]; [now destruct fuel2|].
    destruct fuel2 as [|fuel2]; [simpl in H2; lia|].
    cbn [decode_utf8_fuel]. simpl in H1, H2.
    repeat (case_match; try reflexivity);
      f_equal; apply IH; simplify_eq; simpl in *; lia.
Qed.

(** A sequence that decodes to ASCII characters is those characters. *)
Lemma decode_utf8_fuel_ascii : forall (fuel : nat) (ns : list N) (cps : str),
  decode_utf8_fuel fuel ns = Some cps ->
  Forall (fun c => (c < 128)%N) cps ->
  ns = cps.
Proof.
  induction fuel as [|fuel IH]; intros ns cps Hd Hall; simpl in Hd.
  - destruct ns; [|discriminate]. congruence.
  - destruct ns as [|b1 r1]; [congruence|].
    destruct (b1 <? 128)%N eqn:H1.
    { apply fmap_Some in Hd as (x & Hx & ->).
      apply Forall_cons in Hall as [_ Hall]. f_equal. eauto. }
    exfalso.
    destruct ((194 <=? b1) && (b1 <=? 223))%N eqn:H2.
    { destruct r1 as [|b2 r2]; [discriminate|].
      destruct (is_cont b2) eqn:Hc2; [|discriminate].
      apply fmap_Some in Hd as (x & _ & ->).
      apply Forall_cons in Hall as [Hlt _].
      unfold is_cont in Hc2. unbool; lia. }
    destruct ((224 <=? b1) && (b1 <=? 239))%N eqn:H3.
    { destruct r1 as [|b2 [|b3 r3]]; try discriminate.
      destruct (is_cont b2 && is_cont b3
                && negb ((b1 =? 224)%N && (b2 <? 160)%N)
                && negb ((b1 =? 237)%N && (160 <=? b2)%N)) eqn:Hc;
        [|discriminate].
      apply fmap_Some in Hd as (x & _ & ->).
      apply Forall_cons in Hall as [Hlt _].
      unfold is_cont in Hc. unbool; lia. }
    destruct ((240 <=? b1) && (b1 <=? 244))%N eqn:H4; [|discriminate].
    destruct r1 as [|b2 [|b3 [|b4 r4]]]; try discriminate.
    destruct (is_cont b2 && is_cont b3 && is_cont b4
              && negb ((b1 =? 240)%N && (b2 <? 144)%N)
              && negb ((b1 =? 244)%N && (144 <=? b2)%N)) eqn:Hc;
      [|discriminate].
    apply fmap_Some in Hd as (x & _ & ->).
    apply Forall_cons in Hall as [Hlt _].
    unfold is_cont in Hc. unbool; lia.
Qed.

Lemma to_N_inj (x y : byte) : Byte.to_N x = Byte.to_N y -> x = y.
Proof.
  intros H. apply (f_equal Byte.of_N) in H.
  rewrite !Byte.of_to_N in H. congruence.
Qed.

Lemma map_to_N_inj (l1 l2 : bytes) :
  List.map Byte.to_N l1 = List.map Byte.to_N l2 -> l1 = l2.
Proof.
  revert l2. induction l1 as [|x l1 IH]; intros [|y l2]; simpl;
    try discriminate; [reflexivity|].
  intros [= Hxy Hl]. f_equal; [now apply to_N_inj|now apply IH].
Qed.

(** The slice decodes to ['#include'] exactly when it is the bytes
    [b'#include']. *)
Lemma decode_utf8_include (bs : bytes) :
  decode_utf8 bs = Some (u "#include") <-> bs = b "#include".
Proof.
  split; [|intros ->; reflexivity].
  intros H. apply decode_utf8_fuel_ascii in H.
  - apply map_to_N_inj. rewrite H. reflexivity.
  - vm_compute. repeat constructor.
Qed.

(** *** Acceptance of one header *)

Lemma check_header_nearest (m : bytes) (header : str) (needle : bytes)
    (p q : nat) :
  encode_utf8 header = Some needle ->
  first_match m needle p q ->
  check_header m header
  = if 100 <? Z.of_nat p - Z.of_nat q then Raise IndexError
    else match decode_utf8 (take 8 (drop q m)) with
         | None => Raise UnicodeDecodeError
         | Some s => Ok (bool_decide (s = u "#include"))
         end.
Proof.
  intros Henc (Hfind & Hqp & Hq & Hall).
  assert (Hp : (p < length m)%nat).
  { apply (find_first _ _ _ Hfind). intros ->. discriminate. }
  unfold check_header. rewrite Henc, Hfind.
  replace (Z.of_nat p =? -1) with false by (symmetry; apply Z.eqb_neq; lia).
  rewrite (find_preprocessor_start_nearest _ _ _ Hqp Hp Hq Hall).
  destruct (100 <? Z.of_nat p - Z.of_nat q); [reflexivity|].
  change (len (u "include")) with 7.
  replace (Z.of_nat q + 7 + 1) with (Z.of_nat q + Z.of_nat 8) by lia.
  rewrite getslice_nat by lia. reflexivity.
Qed.

Lemma check_header_accepts_iff (m : bytes) (header : str) (needle : bytes)
    (p q : nat) :
  encode_utf8 header = Some needle ->
  first_match m needle p q ->
  check_header m header = Ok true
  <-> (p - q <= 100)%nat /\ occurs_at (b "#include") m q.
Proof.
  intros Henc Hfm. rewrite (check_header_nearest _ _ _ _ _ Henc Hfm).
  unfold occurs_at. change (length (b "#include")) with 8%nat.
  rewrite <- decode_utf8_include.
  destruct (100 <? Z.of_nat p - Z.of_nat q) eqn:Hd.
  - apply Z.ltb_lt in Hd. split; [discriminate|lia].
  - apply Z.ltb_ge in Hd.
    destruct (decode_utf8 (take 8 (drop q m))) as [s|].
    + split.
      * intros [= Hs]. apply bool_decide_eq_true in Hs. subst s.
        split; [lia|reflexivity].
      * intros [_ [= ->]]. reflexivity.
    + split; [discriminate|intros [_ H]; discriminate].
Qed.

Lemma elem_of_accepted (m : bytes) (hs : list str) (header : str) :
  header ∈ accepted m hs <-> header ∈ hs /\ check_header m header = Ok true.
Proof.
  unfold accepted. rewrite !list_elem_of_In, filter_In, bool_decide_eq_true.
  reflexivity.
Qed.

(** C2, as stated, fails: in [#define a.h #include a.h] the name [a.h]
    occurs at index 21, nine bytes after the ['#'] at index 12 whose
    eight bytes are [#include], and yet the scan of the unit completes
    without [a.h]: only the first occurrence, at index 8, is looked at,
    and the ['#'] before it starts [#define]. *)
Lemma find_includes_any_occurrence_counterexample :
  let m := b "#define a.h #include a.h" in
  read_file dir_define (u "u.c") = Some m
  /\ fs_list <$> (files (scanned dir_define) !! u ".h") = Some [u "a.h"]
  /\ encode_utf8 (u "a.h") = Some (b "a.h")
  /\ occurs_at (b "a.h") m 21
  /\ m !! 12%nat = Some HASH
  /\ occurs_at (b "#include") m 12
  /\ find_includes (world_of dir_define) (scanned dir_define) (u "u.c")
     = Ok [].
Proof. repeat split; by vm_compute. Qed.

(** C2, amended.  When the scan of a unit completes, it returns the
    accepted headers joined, and a known header whose first occurrence
    in the content is at [p], with the nearest ['#'] at or before [p] at
    [q], is among them exactly when [q] is at most 100 bytes before [p]
    and the eight bytes from [q] on are [#include].  Later occurrences of
    the name and earlier ['#'] characters are not looked at. *)
Theorem find_includes_first_match (w : World) (sf : Source_Files)
    (filename res : str) (m : bytes) (h : FileSet) (header : str)
    (needle : bytes) (p q : nat) :
  read_file (scandir w (path sf)) filename = Some m ->
  files sf !! u ".h" = Some h ->
  find_includes w sf filename = Ok res ->
  header ∈ fs_list h ->
  encode_utf8 header = Some needle ->
  first_match m needle p q ->
  res = joined (accepted m (fs_list h))
  /\ (header ∈ accepted m (fs_list h)
      <-> (p - q <= 100)%nat /\ occurs_at (b "#include") m q).
Proof.
  intros Hm Hh Hres Hin Henc Hfm.
  destruct (find_includes_inv _ _ _ _ Hres) as (m' & h' & Hm' & _ & Hh' & ->).
  rewrite Hm in Hm'. injection Hm' as <-.
  rewrite Hh in Hh'. injection Hh' as <-.
  split; [reflexivity|].
  rewrite elem_of_accepted, (check_header_accepts_iff _ _ _ _ _ Henc Hfm).
  tauto.
Qed.

Lemma find_includes_first_match_witness :
  u "util.h " = joined (accepted util_cpp [u "util.h"])
  /\ (u "util.h" ∈ accepted util_cpp [u "util.h"]
      <-> (10 - 0 <= 100)%nat /\ occurs_at (b "#include") util_cpp 0).
Proof.
  apply (find_includes_first_match (world_of dir_util) (scanned dir_util)
           (u "util.cpp") (u "util.h ") util_cpp
           {| fs_list := [u "util.h"]; fs_joined := u "util.h ";
              fs_count := 1 |}
           (u "util.h") (b "util.h") 10 0).
  - vm_compute. reflexivity.
  - vm_compute. reflexivity.
  - vm_compute. reflexivity.
  - apply list_elem_of_In. vm_compute. auto.
  - vm_compute. reflexivity.
  - unfold first_match. repeat split.
    + vm_compute. lia.
    + vm_compute. repeat constructor; discriminate.
Defined.

(** ** The main program *)

Lemma Source_Files_init_new w dir sf :
  Source_Files_init w dir = Ok sf -> exists p, sf = new_Source_Files p.
Proof.
  unfold Source_Files_init. intros H.
  destruct dir as [[|c d]|]; repeat case_match; simplify_eq; eauto.
Qed.

Lemma add_to_bucket_path sf file ext :
  path (add_to_bucket sf file ext).1 = path sf.
Proof. unfold add_to_bucket. repeat case_match; reflexivity. Qed.

Lemma scan_for_main_path sf file name ext :
  path (scan_for_main sf file name ext).1 = path sf.
Proof. unfold scan_for_main. repeat case_match; reflexivity. Qed.

Lemma add_file_path sf file : path (add_file sf file).1 = path sf.
Proof.
  unfold add_file. destruct (split_name (entry_name file)) as [name ext].
  pose proof (add_to_bucket_path sf file ext) as H1.
  destruct (add_to_bucket sf file ext) as [sf1 [[]|e]]; simpl in *;
    [|exact H1].
  now rewrite scan_for_main_path.
Qed.

Lemma scan_files_std_keys w p :
  std_keys (scan_files w (new_Source_Files p)).1.
Proof.
  apply (scan_files_preserve std_keys).
  - apply add_file_std_keys.
  - apply new_Source_Files_std_keys.
Qed.

Lemma scan_files_path w sf : path (scan_files w sf).1 = path sf.
Proof.
  apply (scan_files_preserve (fun s => path s = path sf)); [|reflexivity].
  intros s file <-. apply add_file_path.
Qed.






(** A directory that cannot be listed ends the run with [OSError]. *)
Lemma run_not_listed w argv sf0 :
  Source_Files_init w (head argv) = Ok sf0 ->
  os_scandir w (path sf0) = None ->
  run w argv = Aborted OSError.
Proof.
  intros Hinit Hdir. unfold run. rewrite Hinit.
  unfold create_definitions, gather_files, scan_files. now rewrite Hdir.
Qed.




(** With a sub-directory named [Makefile] nothing is written. *)
Example run_makefile_is_directory :
  main (scanned dir_makefile_dir) = ([], [])
  /\ run (world_of dir_makefile_dir) [] = Aborted OSError.
Proof. split; vm_compute; reflexivity. Qed.

(** ** What the scan raises *)

Lemma check_header_no_hash (m : bytes) (header : str) (needle : bytes) :
  encode_utf8 header = Some needle ->
  find m needle <> -1 ->
  HASH ∉ m ->
  check_header m header = Raise IndexError.
Proof.
  intros Henc Hfind Hno. unfold check_header. rewrite Henc.
  apply Z.eqb_neq in Hfind. rewrite Hfind.
  unfold find_preprocessor_start. now rewrite walk_back_no_hash.
Qed.

(** A header name that occurs in a unit without any ['#'] ends the scan
    of that unit with [IndexError], whatever the headers after it. *)
Lemma find_includes_loop_no_hash (m : bytes) (header : str) (needle : bytes)
    (headers : list str) (includes : str) :
  encode_utf8 header = Some needle ->
  find m needle <> -1 ->
  HASH ∉ m ->
  find_includes_loop m (header :: headers) includes = Raise IndexError.
Proof.
  intros Henc Hfind Hno. cbn [find_includes_loop].
  now rewrite (check_header_no_hash _ _ _ Henc Hfind Hno).
Qed.

(** C1 fails on the code.  The unit [/* see a.h */ void f(){}] names the
    known header [a.h] and holds no ['#']: the backward walk does not
    give up, it runs off the mapping, [find_includes] raises
    [IndexError] and the run ends without a Makefile. *)
Theorem run_header_in_comment :
  find_includes (world_of dir_comment) (scanned dir_comment) (u "u.c")
  = Raise IndexError
  /\ run (world_of dir_comment) [] = Aborted IndexError.
Proof. split; vm_compute; reflexivity. Qed.

(** The other way the walk goes wrong: below index 0 it reads the mapping
    from its end.  In [/* a.h */ #include <b.h>] the name [a.h] has no
    ['#'] before it, the walk reaches the ['#'] of the directive that
    follows, and [a.h] is reported. *)
Example find_includes_wraps_around :
  find (b "/* a.h */ #include <b.h>") (b "a.h") = 3
  /\ (HASH ∉ take 4 (b "/* a.h */ #include <b.h>"))
  /\ find_includes (world_of dir_comment_first) (scanned dir_comment_first)
       (u "u.c")
     = Ok (u "a.h b.h ").
Proof.
  split; [reflexivity|]. split; [|vm_compute; reflexivity].
  intros H. apply list_elem_of_In in H. vm_compute in H.
  intuition discriminate.
Qed.

(** ** The dependency resolver *)

(** A unit without a source in the buckets keeps [includes] as it was:
    unbound at the first turn of the loop, which raises, and the list of
    the unit before it at a later turn. *)
Lemma create_depend_loop_no_source w sf filename objs depends includes
    c_files cpp_files :
  files sf !! u ".c" = Some c_files ->
  files sf !! u ".cpp" = Some cpp_files ->
  str_in (drop_last2 filename ++ u ".c") (fs_list c_files) = false ->
  str_in (drop_last2 filename ++ u ".cpp") (fs_list cpp_files) = false ->
  create_depend_loop w sf (filename :: objs) depends includes
  = match includes with
    | None => Raise UnboundLocalError
    | Some i =>
        create_depend_loop w sf objs
          ((depends ++ filename ++ u ": ") ++ i ++ NL) (Some i)
    end.
Proof.
  intros Hc Hcpp Hnc Hncpp. cbn [create_depend_loop].
  rewrite Hc, Hcpp, Hnc, Hncpp. reflexivity.
Qed.

(** C4 fails on the code.  The file [foo. c] is classified under ['.c']
    and registered as the unit [foo.o]; neither [foo.c] nor [foo.cpp] is
    in the buckets, [includes] is unbound when it is read, and the run
    ends with [UnboundLocalError]. *)
Theorem run_unit_without_source :
  fs_list (obj (scanned dir_space_ext)) = [u "foo.o"]
  /\ fs_list <$> (files (scanned dir_space_ext) !! u ".c")
     = Some [u "foo. c"]
  /\ fs_list <$> (files (scanned dir_space_ext) !! u ".cpp") = Some []
  /\ create_depend (world_of dir_space_ext) (scanned dir_space_ext)
     = Raise UnboundLocalError
  /\ run (world_of dir_space_ext) [] = Aborted UnboundLocalError.
Proof. repeat split; vm_compute; reflexivity. Qed.

(** After a unit whose source is found, the unit without a source is
    given the dependencies of that unit. *)
Example create_depend_stale_includes :
  create_depend (world_of dir_space_ext_second)
    (scanned dir_space_ext_second)
  = Ok (u "bar.o: a.h " ++ NL ++ u "foo.o: a.h " ++ NL).
Proof. vm_compute. reflexivity. Qed.

(** ** Two main files *)

Lemma c_or_cpp_split (file : DirEntry) :
  c_or_cpp file ->
  exists name x,
    split DOT (entry_name file) = [name; x]
    /\ split_name (entry_name file) = (Some name, u "." ++ strip x)
    /\ (u "." ++ strip x = u ".c" \/ u "." ++ strip x = u ".cpp")
    /\ u "." ++ strip x ∈ EXTS.
Proof.
  unfold c_or_cpp. intros Hc.
  destruct (split_name_cases (entry_name file)) as [Hn|(name & x & Hs & Hn)];
    rewrite Hn in Hc; cbn [snd] in Hc.
  - destruct Hc as [Hc|Hc]; vm_compute in Hc; discriminate.
  - exists name, x. repeat split; auto.
    unfold EXTS. rewrite !elem_of_cons. destruct Hc as [->| ->]; tauto.
Qed.

(** An entry that [passes] leaves the main file as it is and raises
    nothing. *)
Lemma add_file_passes sf file :
  std_keys sf ->
  (c_or_cpp file -> entry_data file <> [] /\ ~ has_main file) ->
  exists sf', add_file sf file = (sf', Ok tt) /\ main sf' = main sf.
Proof.
  intros Hk Hp. unfold c_or_cpp, has_main in Hp.
  destruct (split_name_cases (entry_name file)) as [Hn|(name & x & Hs & Hn)];
    unfold add_file; rewrite Hn in *; cbn [snd] in Hp.
  - rewrite add_to_bucket_unknown.
    + exists sf. split; reflexivity.
    + apply eq_None_not_Some. rewrite (std_keys_lookup _ _ Hk).
      unfold EXTS. rewrite !elem_of_cons, elem_of_nil.
      intros H; vm_compute in H; intuition discriminate.
  - assert (Hb : exists sf1,
               add_to_bucket sf file (u "." ++ strip x) = (sf1, Ok tt)
               /\ main sf1 = main sf /\ obj sf1 = obj sf).
    { destruct (files sf !! (u "." ++ strip x)) as [fs|] eqn:Hl.
      - rewrite (add_to_bucket_known _ _ _ _ Hl (strip_dot_strip x)). eauto.
      - rewrite (add_to_bucket_unknown _ _ _ Hl). eauto. }
    destruct Hb as (sf1 & -> & Hm1 & _). unfold scan_for_main.
    destruct (bool_decide (u "." ++ strip x = u ".c")
              || bool_decide (u "." ++ strip x = u ".cpp")) eqn:He.
    + apply orb_true_iff in He. rewrite !bool_decide_eq_true in He.
      destruct (Hp He) as [Hd Hnm].
      destruct (entry_data file) as [|c m]; [congruence|].
      destruct (Z.eq_dec (find (c :: m) (b "int main(")) (-1)) as [->|Hne];
        [|contradiction].
      simpl. eauto.
    + eauto.
Qed.

Lemma scan_entries_passes l : forall sf,
  std_keys sf -> Forall passes l ->
  exists sf',
    scan_entries sf l = (sf', Ok tt) /\ main sf' = main sf /\ std_keys sf'.
Proof.
  induction l as [|e l IH]; intros sf Hk Hall; cbn [scan_entries].
  - eauto.
  - apply Forall_cons in Hall as [He Hall].
    destruct (entry_is_file e) eqn:Hf; [|auto].
    destruct (add_file_passes sf e Hk (He Hf)) as (sf1 & Ha & Hm).
    pose proof (add_file_std_keys sf e Hk) as Hk1.
    rewrite Ha in *. simpl in Hk1.
    destruct (IH sf1 Hk1 Hall) as (sf' & -> & Hm' & Hk').
    exists sf'. repeat split; congruence.
Qed.

Lemma scan_entries_app l1 l2 : forall sf,
  scan_entries sf (l1 ++ l2)
  = match scan_entries sf l1 with
    | (sf', Ok _) => scan_entries sf' l2
    | (sf', Raise e) => (sf', Raise e)
    end.
Proof.
  induction l1 as [|e l1 IH]; intros sf; simpl; [reflexivity|].
  destruct (entry_is_file e); [|apply IH].
  destruct (add_file sf e) as [sf1 [[]|x]]; [apply IH|reflexivity].
Qed.

(** The scan of a directory with two main files, when the entries met
    before the second one pass: the second main file raises, and the
    exception names the first one (stem and extension) and the file being
    added. *)
Lemma scan_two_mains sf l1 f1 l2 f2 l3 name1 ext1 :
  std_keys sf -> get_full_main sf = [] ->
  Forall passes l1 -> Forall passes l2 ->
  entry_is_file f1 = true -> c_or_cpp f1 -> has_main f1 ->
  split_name (entry_name f1) = (Some name1, ext1) ->
  entry_is_file f2 = true -> c_or_cpp f2 -> has_main f2 ->
  (scan_entries sf (l1 ++ f1 :: l2 ++ f2 :: l3)).2
  = Raise (MultipleMainError (name1 ++ ext1) (entry_name f2)).
Proof.
  intros Hk Hmain Hl1 Hl2 Hf1 Hc1 Hm1 Hn1 Hf2 Hc2 Hm2.
  rewrite scan_entries_app.
  destruct (scan_entries_passes l1 sf Hk Hl1) as (sf1 & -> & Hmain1 & Hk1).
  cbn [scan_entries]. rewrite Hf1.
  destruct (c_or_cpp_split f1 Hc1) as (n1 & x1 & Hs1 & Hn1' & He1 & Hin1).
  rewrite Hn1 in Hn1'. injection Hn1' as -> ->.
  apply (std_keys_lookup _ _ Hk1) in Hin1 as [fs1 Hfs1].
  assert (Ha1 := add_file_registers_main _ _ _ _ _ Hs1 He1 Hfs1 Hm1).
  rewrite Ha1 by (unfold get_full_main; rewrite Hmain1; exact Hmain).
  pose proof (add_file_std_keys sf1 f1 Hk1) as Hk2.
  rewrite Ha1 in Hk2 by (unfold get_full_main; rewrite Hmain1; exact Hmain).
  cbn [fst] in Hk2. rewrite scan_entries_app.
  destruct (scan_entries_passes l2 _ Hk2 Hl2) as (sf3 & -> & Hmain3 & Hk3).
  cbn [scan_entries]. rewrite Hf2.
  destruct (c_or_cpp_split f2 Hc2) as (n2 & x2 & Hs2 & _ & He2 & Hin2).
  apply (std_keys_lookup _ _ Hk3) in Hin2 as [fs2 Hfs2].
  rewrite (add_file_with_main _ _ _ _ _ Hs2 He2 Hfs2 Hm2).
  assert (Hfull : get_full_main sf3 = n1 ++ u "." ++ strip x1).
  { unfold get_full_main. rewrite Hmain3. reflexivity. }
  rewrite Hfull. rewrite bool_decide_eq_false_2; [reflexivity|].
  intros H. apply app_eq_nil in H as [_ H]. discriminate.
Qed.

(** The run on such a directory ends with that exception. *)
Lemma run_two_mains w argv sf0 l1 f1 l2 f2 l3 name1 ext1 :
  Source_Files_init w (head argv) = Ok sf0 ->
  scandir w (path sf0) = l1 ++ f1 :: l2 ++ f2 :: l3 ->
  Forall passes l1 -> Forall passes l2 ->
  entry_is_file f1 = true -> c_or_cpp f1 -> has_main f1 ->
  split_name (entry_name f1) = (Some name1, ext1) ->
  entry_is_file f2 = true -> c_or_cpp f2 -> has_main f2 ->
  run w argv = Aborted (MultipleMainError (name1 ++ ext1) (entry_name f2)).
Proof.
  intros Hinit Hdir Hl1 Hl2 Hf1 Hc1 Hm1 Hn1 Hf2 Hc2 Hm2.
  destruct (Source_Files_init_new _ _ _ Hinit) as [p ->].
  pose proof (scan_two_mains (new_Source_Files p) l1 f1 l2 f2 l3 name1 ext1
                (new_Source_Files_std_keys p) eq_refl
                Hl1 Hl2 Hf1 Hc1 Hm1 Hn1 Hf2 Hc2 Hm2) as Hscan.
  unfold run. rewrite Hinit.
  unfold create_definitions, gather_files, scan_files.
  rewrite (scandir_listed _ _ _ Hdir)
    by (destruct l1; discriminate).
  destruct (scan_entries _ _) as [sf r]. simpl in Hscan. now subst r.
Qed.

Example run_two_mains_example :
  run (world_of dir_two_mains) []
  = Aborted (MultipleMainError (u "b.c") (u "c.cpp")).
Proof.
  apply (run_two_mains (world_of dir_two_mains) []
           (new_Source_Files proj_path)
           [] (file_entry "b.c" "int main(){}")
           [] (file_entry "c.cpp" "int main(){}") [] (u "b") (u ".c"));
    first [ reflexivity | (left; reflexivity) | (right; reflexivity)
          | (vm_compute; discriminate) | solve [constructor] ].
Qed.

(** C5 fails on the code.  The directory holds the two main files [b.c]
    and [c.c] and, met first, the empty file [a.c]: mapping the empty
    file raises [ValueError] and the run ends before the second main
    file is reached.  No Makefile is written, but the exception is not
    [MultipleMainError] and names no file. *)
Theorem run_empty_file_before_mains :
  (scan_files (world_of dir_empty_first) (new_Source_Files proj_path)).2
  = Raise ValueError
  /\ run (world_of dir_empty_first) [] = Aborted ValueError.
Proof. split; vm_compute; reflexivity. Qed.

(** ** More on the file classifier *)

Lemma add_to_bucket_rest sf file ext :
  main (add_to_bucket sf file ext).1 = main sf
  /\ obj (add_to_bucket sf file ext).1 = obj sf.
Proof. unfold add_to_bucket. repeat case_match; split; reflexivity. Qed.

Lemma scan_for_main_total sf file name ext :
  total_files (scan_for_main sf file name ext).1 = total_files sf.
Proof. unfold scan_for_main. repeat case_match; reflexivity. Qed.

(** Entries that are not regular files do not take part in the scan:
    dropping them from the listing changes neither the object that the
    scan leaves nor what it raises. *)
Theorem scan_entries_regular_files (sf : Source_Files)
    (entries : list DirEntry) :
  scan_entries sf entries
  = scan_entries sf (List.filter entry_is_file entries).
Proof.
  rewrite !scan_entries_add_files. f_equal.
  induction entries as [|e l IH]; simpl; [reflexivity|].
  destruct (entry_is_file e) eqn:He; simpl; [|exact IH].
  rewrite He. now f_equal.
Qed.

(** A file whose extension is not a key of the dictionary (such as
    ['.txt'], ['.C'] or ['.S']) is ignored: the object is left as it was,
    the file is not opened and the call returns. *)
Theorem add_file_unknown_extension (sf : Source_Files) (file : DirEntry) :
  std_keys sf ->
  ext_of file ∉ EXTS ->
  add_file sf file = (sf, Ok tt).
Proof.
  intros Hk Hext. unfold ext_of in Hext. unfold add_file.
  destruct (split_name (entry_name file)) as [name ext]. cbn [snd] in Hext.
  rewrite add_to_bucket_unknown.
  - assert (H1 : ext <> u ".c")
      by (intros ->; apply Hext; unfold EXTS; rewrite !elem_of_cons; tauto).
    assert (H2 : ext <> u ".cpp")
      by (intros ->; apply Hext; unfold EXTS; rewrite !elem_of_cons; tauto).
    unfold scan_for_main.
    rewrite (bool_decide_eq_false_2 _ H1), (bool_decide_eq_false_2 _ H2).
    reflexivity.
  - apply eq_None_not_Some. now rewrite (std_keys_lookup _ _ Hk).
Qed.

Lemma add_file_unknown_extension_witness :
  add_file (new_Source_Files []) (file_entry "boot.S" "")
  = (new_Source_Files [], Ok tt).
Proof.
  apply add_file_unknown_extension.
  - vm_compute. reflexivity.
  - intros H. apply list_elem_of_In in H. vm_compute in H.
    intuition discriminate.
Defined.

Lemma add_file_bucket_of sf file (k : str) (h : FileSet) :
  files sf !! k = Some h ->
  files (add_file sf file).1 !! k
  = Some (if bool_decide (ext_of file = k)
          then fs_append h (entry_name file) else h).
Proof.
  intros Hh. rewrite add_file_files. fold (ext_of file).
  destruct (decide (ext_of file = k)) as [He|He].
  - rewrite bool_decide_eq_true_2 by exact He.
    rewrite He, Hh. apply lookup_insert_eq.
  - rewrite bool_decide_eq_false_2 by exact He.
    destruct (files sf !! ext_of file); [|exact Hh].
    rewrite lookup_insert_ne by exact He. exact Hh.
Qed.

Lemma add_files_bucket_of (k : str) l : forall sf sf' h r,
  files sf !! k = Some h ->
  add_files sf l = (sf', r) ->
  exists h' done,
    files sf' !! k = Some h'
    /\ done `prefix_of` l
    /\ (r = Ok tt -> done = l)
    /\ fs_list h'
       = fs_list h
         ++ List.map entry_name
              (List.filter (fun e => bool_decide (ext_of e = k)) done).
Proof.
  induction l as [|e l IH]; intros sf sf' h r Hh Hrun; cbn [add_files] in Hrun.
  - injection Hrun as <- <-. exists h, []. repeat split; auto.
    simpl. now rewrite app_nil_r.
  - pose proof (add_file_bucket_of sf e k h Hh) as Hh1.
    destruct (add_file sf e) as [sf1 [[]|x]]; cbn [fst] in Hh1.
    + destruct (IH _ _ _ _ Hh1 Hrun) as (h' & done & Hh' & Hp & Hall & Hl).
      exists h', (e :: done). repeat split; auto.
      * now apply prefix_cons.
      * intros Hr. now rewrite (Hall Hr).
      * rewrite Hl. simpl.
        destruct (bool_decide (ext_of e = k)); simpl; [|reflexivity].
        now rewrite <- app_assoc.
    + injection Hrun as <- <-. eexists. exists [e].
      split; [exact Hh1|]. split; [apply prefix_cons, prefix_nil|].
      split; [discriminate|].
      simpl. destruct (bool_decide (ext_of e = k)); simpl;
        [reflexivity|now rewrite app_nil_r].
Qed.

Lemma scan_files_bucket_list w p sf (k : str) :
  scan_files w (new_Source_Files p) = (sf, Ok tt) ->
  k ∈ EXTS ->
  exists fs,
    files sf !! k = Some fs /\ fs_list fs = files_of_ext k (scandir w p).
Proof.
  intros Hrun Hk. apply scan_files_ok in Hrun.
  cbn [path new_Source_Files] in Hrun.
  apply (std_keys_lookup _ _ (new_Source_Files_std_keys p)) in Hk as [h Hh].
  assert (h = fs_empty) as ->.
  { cbn [files new_Source_Files] in Hh. unfold init_files in Hh.
    repeat (rewrite lookup_insert in Hh; case_decide; [congruence|]).
    rewrite lookup_empty in Hh. discriminate. }
  destruct (add_files_bucket_of k _ _ _ _ _ Hh Hrun)
    as (h' & done & Hh' & _ & Hall & Hl).
  rewrite (Hall eq_refl) in Hl. exists h'. split; [exact Hh'|exact Hl].
Qed.

(** After a scan that returns, the bucket of each of the five extensions
    lists the regular files of that extension, under their full names and
    in the order in which [os.scandir] gave them. *)
Theorem scan_files_buckets (w : World) (p : str) (sf : Source_Files)
    (k : str) :
  scan_files w (new_Source_Files p) = (sf, Ok tt) ->
  k ∈ EXTS ->
  fs_list <$> (files sf !! k) = Some (files_of_ext k (scandir w p)).
Proof.
  intros Hrun Hk.
  destruct (scan_files_bucket_list _ _ _ _ Hrun Hk) as (fs & -> & <-).
  reflexivity.
Qed.

Lemma scan_files_buckets_witness :
  fs_list <$> (files (scanned dir_mixed) !! u ".c")
  = Some [u "main.c"; u "util.c"].
Proof.
  apply (scan_files_buckets (world_of dir_mixed) proj_path
           (scanned dir_mixed) (u ".c")).
  - vm_compute. reflexivity.
  - apply list_elem_of_In. vm_compute. auto.
Defined.

(** What a call of [add_file] that returns has done to the object bucket
    and to the main file. *)
Lemma add_file_ok sf file sf' :
  add_file sf file = (sf', Ok tt) ->
  obj sf'
  = (if is_c_or_cpp file && negb (holds_main file)
     then fs_append (obj sf) (stem_of file ++ OBJ_SUF) else obj sf)
  /\ main sf'
     = (if is_c_or_cpp file && holds_main file
        then (stem_of file, ext_of file) else main sf)
  /\ (is_c_or_cpp file && holds_main file = true -> get_full_main sf = [])
  /\ (is_c_or_cpp file = true -> entry_data file <> []).
Proof.
  unfold is_c_or_cpp, holds_main, stem_of, ext_of, add_file.
  destruct (split_name (entry_name file)) as [name ext]. cbn [fst snd].
  pose proof (add_to_bucket_rest sf file ext) as [Hm Ho].
  destruct (add_to_bucket sf file ext) as [sf1 [[]|e]]; [|discriminate].
  cbn [fst] in Hm, Ho. unfold scan_for_main.
  assert (Hfull : get_full_main sf1 = get_full_main sf)
    by (unfold get_full_main; now rewrite Hm).
  destruct (bool_decide (ext = u ".c") || bool_decide (ext = u ".cpp"));
    cbn [andb].
  - destruct (entry_data file) as [|c m]; [discriminate|].
    destruct (find (c :: m) (b "int main(") =? -1); cbn [negb].
    + destruct name as [name|]; [|discriminate]. intros [= <-].
      cbn [obj main set_obj set_main default from_option id].
      rewrite Ho, Hm. repeat split; discriminate.
    + destruct (bool_decide (get_full_main sf1 = [])) eqn:Hg;
        cbn [negb]; [|discriminate].
      apply bool_decide_eq_true in Hg.
      destruct name as [name|]; [|discriminate]. intros [= <-].
      cbn [obj main set_obj set_main default from_option id].
      rewrite Ho. repeat split; try discriminate. congruence.
  - intros [= <-]. repeat split; auto; discriminate.
Qed.

Lemma add_files_ok_obj l : forall sf sf',
  add_files sf l = (sf', Ok tt) ->
  fs_list (obj sf')
  = fs_list (obj sf)
    ++ List.map (fun e => stem_of e ++ OBJ_SUF)
         (List.filter (fun e => is_c_or_cpp e && negb (holds_main e)) l).
Proof.
  induction l as [|e l IH]; intros sf sf' Hrun; cbn [add_files] in Hrun.
  - injection Hrun as <-. simpl. now rewrite app_nil_r.
  - destruct (add_file sf e) as [sf1 [[]|x]] eqn:Ha; [|discriminate].
    apply add_file_ok in Ha as (Ho & _). rewrite (IH _ _ Hrun), Ho. simpl.
    destruct (is_c_or_cpp e && negb (holds_main e)); simpl; [|reflexivity].
    now rewrite <- app_assoc.
Qed.

(** After a scan that returns, the object bucket lists, in the order of
    the scan, the object names [stem + '.o'] of the regular C and C++
    files that do not hold the marker, and nothing else. *)
Theorem scan_files_units (w : World) (p : str) (sf : Source_Files) :
  scan_files w (new_Source_Files p) = (sf, Ok tt) ->
  fs_list (obj sf) = unit_names (scandir w p).
Proof.
  intros Hrun. apply scan_files_ok in Hrun.
  cbn [path new_Source_Files] in Hrun.
  now rewrite (add_files_ok_obj _ _ _ Hrun).
Qed.

Lemma scan_files_units_witness :
  fs_list (obj (scanned dir_mixed)) = [u "util.o"; u "io.o"].
Proof.
  apply (scan_files_units (world_of dir_mixed) proj_path (scanned dir_mixed)).
  vm_compute. reflexivity.
Defined.

Lemma add_files_ok_main l : forall sf sf',
  add_files sf l = (sf', Ok tt) ->
  match List.filter (fun e => is_c_or_cpp e && holds_main e) l with
  | [] => main sf' = main sf
  | f :: rest =>
      rest = [] /\ get_full_main sf = []
      /\ main sf' = (stem_of f, ext_of f)
  end.
Proof.
  induction l as [|e l IH]; intros sf sf' Hrun; cbn [add_files] in Hrun.
  - injection Hrun as <-. reflexivity.
  - destruct (add_file sf e) as [sf1 [[]|x]] eqn:Ha; [|discriminate].
    apply add_file_ok in Ha as (_ & Hm & Hfull & _).
    specialize (IH _ _ Hrun). simpl.
    destruct (is_c_or_cpp e && holds_main e) eqn:He.
    + destruct (List.filter _ l) as [|f rest].
      * repeat split; auto. congruence.
      * exfalso. destruct IH as (_ & Hg & _).
        unfold get_full_main in Hg. rewrite Hm in Hg. cbn [fst snd] in Hg.
        apply app_eq_nil in Hg as [_ Hg].
        apply andb_true_iff in He as [He _]. unfold is_c_or_cpp in He.
        rewrite Hg in He. discriminate.
    + destruct (List.filter _ l) as [|f rest]; [congruence|].
      destruct IH as (-> & Hg & ->). repeat split.
      unfold get_full_main in *. now rewrite <- Hm.
Qed.

(** A scan that returns has met at most one C or C++ file that holds the
    marker: with none, no main file is registered, and with one, the main
    file is its stem and its extension. *)
Theorem scan_files_main (w : World) (p : str) (sf : Source_Files) :
  scan_files w (new_Source_Files p) = (sf, Ok tt) ->
  match main_files (scandir w p) with
  | [] => main sf = ([], [])
  | [f] => main sf = (stem_of f, ext_of f)
  | _ => False
  end.
Proof.
  intros Hrun. apply scan_files_ok in Hrun.
  apply add_files_ok_main in Hrun. unfold main_files.
  cbn [path new_Source_Files] in *.
  destruct (List.filter _ _) as [|f [|g rest]]; [exact Hrun| |].
  - now destruct Hrun as (_ & _ & ->).
  - now destruct Hrun as (Hr & _).
Qed.

Lemma scan_files_main_witness :
  main (scanned dir_mixed) = (u "main", u ".c").
Proof.
  apply (scan_files_main (world_of dir_mixed) proj_path (scanned dir_mixed)).
  vm_compute. reflexivity.
Defined.

(** *** The count of all files *)

Lemma add_file_total sf file :
  total_files (add_file sf file).1
  = match files sf !! ext_of file with
    | Some _ => total_files sf + 1
    | None => total_files sf
    end.
Proof.
  unfold ext_of, add_file.
  pose proof (split_name_ext_strip (entry_name file)) as Hs.
  destruct (split_name (entry_name file)) as [name ext]. cbn [snd] in *.
  destruct (files sf !! ext) as [fs|] eqn:Hl.
  - rewrite (add_to_bucket_known _ _ _ _ Hl Hs). apply scan_for_main_total.
  - rewrite (add_to_bucket_unknown _ _ _ Hl). apply scan_for_main_total.
Qed.

Lemma bucket_sizes_insert sf sf' (k : str) (fs fs' : FileSet) (l : list str) :
  files sf !! k = Some fs ->
  files sf' = <[k := fs']> (files sf) ->
  NoDup l ->
  foldr Z.add 0 (List.map (bucket_size sf') l)
  = foldr Z.add 0 (List.map (bucket_size sf) l)
    + (if bool_decide (k ∈ l)
       then len (fs_list fs') - len (fs_list fs) else 0).
Proof.
  intros Hk Hf. induction l as [|x l IH]; intros Hnd.
  - simpl. lia.
  - apply NoDup_cons in Hnd as [Hx Hnd]. specialize (IH Hnd).
    cbn [List.map foldr]. rewrite IH. unfold bucket_size at 1 3.
    rewrite Hf. destruct (decide (k = x)) as [->|Hne].
    + rewrite lookup_insert_eq, Hk.
      rewrite (bool_decide_eq_false_2 _ Hx).
      rewrite bool_decide_eq_true_2 by apply list_elem_of_here. lia.
    + rewrite lookup_insert_ne by exact Hne.
      destruct (bool_decide (k ∈ l)) eqn:Hin.
      * apply bool_decide_eq_true in Hin.
        rewrite bool_decide_eq_true_2 by (now apply list_elem_of_further).
        lia.
      * apply bool_decide_eq_false in Hin.
        rewrite bool_decide_eq_false_2; [lia|].
        rewrite elem_of_cons. tauto.
Qed.

Lemma EXTS_NoDup : NoDup EXTS.
Proof.
  unfold EXTS. repeat (apply NoDup_cons; split;
    [intros H; apply list_elem_of_In in H; vm_compute in H;
     intuition discriminate|]).
  apply NoDup_nil_2.
Qed.

Lemma add_file_held sf file :
  std_keys sf ->
  total_files sf = held sf ->
  total_files (add_file sf file).1 = held (add_file sf file).1.
Proof.
  intros Hk Hinv. rewrite add_file_total.
  pose proof (add_file_files sf file) as Hf. fold (ext_of file) in Hf.
  destruct (files sf !! ext_of file) as [fs|] eqn:Hl.
  - unfold held. rewrite (bucket_sizes_insert _ _ _ _ _ _ Hl Hf EXTS_NoDup).
    rewrite bool_decide_eq_true_2
      by (apply (std_keys_lookup _ _ Hk); eauto).
    fold (held sf). rewrite <- Hinv. cbn [fs_list fs_append].
    unfold len. rewrite length_app. simpl. lia.
  - unfold held in *. rewrite Hinv. f_equal.
    apply map_ext. intros k. unfold bucket_size. now rewrite Hf.
Qed.

(** [total_files] counts the names held by the five extension buckets,
    after any sequence of [add_file] calls on a new object, whether the
    last call returned or raised. *)
Theorem add_files_total (p : str) (l : list DirEntry) :
  total_files (add_files (new_Source_Files p) l).1
  = held (add_files (new_Source_Files p) l).1.
Proof.
  apply (add_files_preserve
           (fun sf => std_keys sf /\ total_files sf = held sf)).
  - intros sf file [Hk Hinv]. split.
    + now apply add_file_std_keys.
    + now apply add_file_held.
  - split; [apply new_Source_Files_std_keys|reflexivity].
Qed.

(** ** More on the include scanner *)

(** When every known header name can be encoded in UTF-8 (none holds a
    lone surrogate) and none of them occurs in a unit that is not empty,
    the unit has no dependencies: the scan returns the empty string and
    does not raise. *)
Theorem find_includes_no_mention (w : World) (sf : Source_Files)
    (filename : str) (m : bytes) (h : FileSet) :
  read_file (scandir w (path sf)) filename = Some m ->
  m <> [] ->
  files sf !! u ".h" = Some h ->
  Forall (fun header => exists needle,
            encode_utf8 header = Some needle /\ find m needle = -1)
    (fs_list h) ->
  find_includes w sf filename = Ok [].
Proof.
  intros Hm Hne Hh Hall. unfold find_includes. rewrite Hm, Hh.
  destruct m as [|c m]; [congruence|].
  assert (Hfalse : Forall (fun header => check_header (c :: m) header = Ok false)
                     (fs_list h)).
  { eapply Forall_impl; [exact Hall|]. intros header (needle & Henc & Hf).
    unfold check_header. now rewrite Henc, Hf. }
  assert (Hacc : accepted (c :: m) (fs_list h) = []).
  { clear Hall Hh. induction Hfalse as [|header hs Hhd _ IH]; [reflexivity|].
    rewrite accepted_cons, Hhd.
    rewrite bool_decide_eq_false_2 by discriminate. exact IH. }
  rewrite find_includes_loop_returns.
  - now rewrite Hacc.
  - eapply Forall_impl; [exact Hfalse|]. intros header Hc.
    exists false. exact Hc.
Qed.

Lemma find_includes_no_mention_witness :
  find_includes (world_of dir_util) (scanned dir_util) (u "main.cpp") = Ok [].
Proof.
  apply (find_includes_no_mention (world_of dir_util) (scanned dir_util)
           (u "main.cpp") (b "int main(){ ... }")
           {| fs_list := [u "util.h"]; fs_joined := u "util.h ";
              fs_count := 1 |}).
  - vm_compute. reflexivity.
  - discriminate.
  - vm_compute. reflexivity.
  - apply Forall_cons. split; [|apply Forall_nil_2].
    exists (b "util.h"). split; vm_compute; reflexivity.
Defined.

(** When the nearest ['#'] at or before the first occurrence of a header
    name lies more than 100 bytes back, the walk does not give up: the
    loop raises [IndexError] when it comes to this header, here at the
    head of the list. *)
Lemma find_includes_loop_far_hash (m : bytes) (header : str)
    (needle : bytes) (headers : list str) (includes : str) (p q : nat) :
  encode_utf8 header = Some needle ->
  first_match m needle p q ->
  (100 < p - q)%nat ->
  find_includes_loop m (header :: headers) includes = Raise IndexError.
Proof.
  intros Henc Hfm Hfar. cbn [find_includes_loop].
  rewrite (check_header_nearest _ _ _ _ _ Henc Hfm).
  replace (100 <? Z.of_nat p - Z.of_nat q) with true
    by (symmetry; apply Z.ltb_lt; lia).
  reflexivity.
Qed.

(** A header on which the body of the loop raises ends the scan: with
    the exception of that header when the headers before it are scanned
    without raising, with the exception of an earlier header
    otherwise. *)
Lemma find_includes_loop_raises_at (m : bytes) (header : str) (e0 : exn)
    (before after : list str) :
  check_header m header = Raise e0 ->
  forall includes,
    (exists e,
       find_includes_loop m (before ++ header :: after) includes = Raise e)
    /\ (Forall (fun h => exists r, check_header m h = Ok r) before ->
        find_includes_loop m (before ++ header :: after) includes
        = Raise e0).
Proof.
  intros Hc. induction before as [|h before IH]; intros includes;
    cbn [app find_includes_loop].
  - rewrite Hc. split; eauto.
  - destruct (check_header m h) as [[|]|x] eqn:Hh.
    + destruct (IH (includes ++ h ++ u " ")) as [He Hf].
      split; [exact He|]. intros HF.
      apply Forall_cons in HF as [_ HF]. exact (Hf HF).
    + destruct (IH includes) as [He Hf].
      split; [exact He|]. intros HF.
      apply Forall_cons in HF as [_ HF]. exact (Hf HF).
    + split; [eauto|]. intros HF.
      apply Forall_cons in HF as [[r Hr] _]. congruence.
Qed.

Lemma find_includes_raises_at w sf filename (m : bytes) (h : FileSet)
    (header : str) (e0 : exn) (before after : list str) :
  read_file (scandir w (path sf)) filename = Some m ->
  m <> [] ->
  files sf !! u ".h" = Some h ->
  fs_list h = before ++ header :: after ->
  check_header m header = Raise e0 ->
  (exists e, find_includes w sf filename = Raise e)
  /\ (Forall (fun h => exists r, check_header m h = Ok r) before ->
      find_includes w sf filename = Raise e0).
Proof.
  intros Hm Hne Hh Hl Hc. unfold find_includes. rewrite Hm, Hh, Hl.
  destruct m as [|c m]; [congruence|].
  apply (find_includes_loop_raises_at _ _ _ _ _ Hc).
Qed.

(** When the nearest ['#'] at or before the first occurrence of a known
    header name lies more than 100 bytes back, the walk does not give
    up and [find_includes] returns no list for the unit: it raises, and
    what it raises is [IndexError] when the headers that come before
    this one in the bucket are scanned without raising. *)
Theorem find_includes_far_hash (w : World) (sf : Source_Files)
    (filename : str) (m : bytes) (h : FileSet) (header : str)
    (needle : bytes) (before after : list str) (p q : nat) :
  read_file (scandir w (path sf)) filename = Some m ->
  files sf !! u ".h" = Some h ->
  fs_list h = before ++ header :: after ->
  encode_utf8 header = Some needle ->
  first_match m needle p q ->
  (100 < p - q)%nat ->
  (exists e, find_includes w sf filename = Raise e)
  /\ (Forall (fun h => exists r, check_header m h = Ok r) before ->
      find_includes w sf filename = Raise IndexError).
Proof.
  intros Hm Hh Hl Henc Hfm Hfar.
  apply (find_includes_raises_at w sf filename m h header IndexError
           before after Hm); auto.
  - pose proof Hfm as (_ & _ & Hq & _). intros ->.
    rewrite lookup_nil in Hq. discriminate.
  - pose proof (find_includes_loop_far_hash m header needle [] [] p q
                  Henc Hfm Hfar) as H.
    cbn [find_includes_loop] in H.
    destruct (check_header m header) as [[|]|e]; congruence.
Qed.

Lemma find_includes_far_hash_witness :
  find_includes (world_of dir_far_hash) (scanned dir_far_hash) (u "u.c")
  = Raise IndexError.
Proof.
  apply (find_includes_far_hash (world_of dir_far_hash)
           (scanned dir_far_hash) (u "u.c") far_hash
           {| fs_list := [u "b.h"; u "a.h"]; fs_joined := u "b.h a.h ";
              fs_count := 2 |}
           (u "a.h") (b "a.h") [u "b.h"] [] 102 0).
  - vm_compute. reflexivity.
  - vm_compute. reflexivity.
  - reflexivity.
  - vm_compute. reflexivity.
  - unfold first_match. repeat split.
    + vm_compute. lia.
    + vm_compute. repeat (constructor; [discriminate|]). constructor.
  - vm_compute. lia.
  - apply Forall_cons. split; [|apply Forall_nil_2].
    exists false. vm_compute. reflexivity.
Defined.

(** When a known header name occurs in a unit that is not empty and
    holds no ['#'] at all, [find_includes] returns no list for the unit:
    it raises, and what it raises is [IndexError] when the headers that
    come before this one in the bucket are scanned without raising. *)
Theorem find_includes_no_hash (w : World) (sf : Source_Files)
    (filename : str) (m : bytes) (h : FileSet) (header : str)
    (needle : bytes) (before after : list str) :
  read_file (scandir w (path sf)) filename = Some m ->
  m <> [] ->
  files sf !! u ".h" = Some h ->
  fs_list h = before ++ header :: after ->
  encode_utf8 header = Some needle ->
  find m needle <> -1 ->
  HASH ∉ m ->
  (exists e, find_includes w sf filename = Raise e)
  /\ (Forall (fun h => exists r, check_header m h = Ok r) before ->
      find_includes w sf filename = Raise IndexError).
Proof.
  intros Hm Hne Hh Hl Henc Hfind Hno.
  apply (find_includes_raises_at w sf filename m h header IndexError
           before after Hm Hne Hh Hl).
  now apply (check_header_no_hash _ _ needle).
Qed.

Lemma find_includes_no_hash_witness :
  find_includes (world_of dir_comment_second) (scanned dir_comment_second)
    (u "u.c")
  = Raise IndexError.
Proof.
  apply (find_includes_no_hash (world_of dir_comment_second)
           (scanned dir_comment_second) (u "u.c")
           (b "/* see a.h */ void f(){}")
           {| fs_list := [u "b.h"; u "a.h"]; fs_joined := u "b.h a.h ";
              fs_count := 2 |}
           (u "a.h") (b "a.h") [u "b.h"] []).
  - vm_compute. reflexivity.
  - discriminate.
  - vm_compute. reflexivity.
  - reflexivity.
  - vm_compute. reflexivity.
  - vm_compute. discriminate.
  - intros H. apply list_elem_of_In in H. vm_compute in H.
    intuition discriminate.
  - apply Forall_cons. split; [|apply Forall_nil_2].
    exists false. vm_compute. reflexivity.
Defined.

(** ** More on the dependency resolver *)

Lemma create_depend_loop_lines w sf objs : forall depends includes text,
  create_depend_loop w sf objs depends includes = Ok text ->
  exists incs : list str,
    length incs = length objs
    /\ text = depends ++ List.concat (zip_with depend_line objs incs).
Proof.
  induction objs as [|filename objs IH]; intros depends includes text H;
    cbn [create_depend_loop] in H.
  - injection H as <-. exists []. split; [reflexivity|].
    simpl. now rewrite app_nil_r.
  - match type of H with
    | match ?bound with _ => _ end = _ =>
        destruct bound as [[i|]|e]; try discriminate
    end.
    destruct (IH _ _ _ H) as (incs & Hlen & ->).
    exists (i :: incs). split; [simpl; now rewrite Hlen|].
    simpl. unfold depend_line. now rewrite <- !app_assoc.
Qed.

(** When [create_depend] returns, the section has one line for each name
    of the object bucket, in the order of the bucket: the name, a colon
    and a space, a dependency list and a newline. *)
Theorem create_depend_lines (w : World) (sf : Source_Files) (text : str) :
  create_depend w sf = Ok text ->
  exists incs : list str,
    length incs = length (fs_list (obj sf))
    /\ text = List.concat (zip_with depend_line (fs_list (obj sf)) incs).
Proof.
  intros H. apply create_depend_loop_lines in H as (incs & Hlen & ->).
  exists incs. split; [exact Hlen|reflexivity].
Qed.

Lemma create_depend_lines_witness :
  exists incs : list str,
    length incs = length [u "util.o"]
    /\ u "util.o: util.h " ++ NL
       = List.concat (zip_with depend_line [u "util.o"] incs).
Proof.
  apply (create_depend_lines (world_of dir_util) (scanned dir_util)
           (u "util.o: util.h " ++ NL)).
  vm_compute. reflexivity.
Defined.

Lemma walk_back_raises m found k e :
  walk_back m found k = Raise e -> e = IndexError.
Proof.
  induction k as [|k IH]; cbn [walk_back]; [congruence|].
  destruct (getitem m _); [|congruence].
  destruct (_ || _); [exact IH|discriminate].
Qed.

Lemma check_header_raises m header e :
  check_header m header = Raise e ->
  e = IndexError \/ e = UnicodeDecodeError \/ e = UnicodeEncodeError.
Proof.
  unfold check_header, find_preprocessor_start.
  destruct (encode_utf8 header); [|intros [= <-]; auto].
  destruct (_ =? -1); [discriminate|].
  destruct (walk_back m _ _) as [ps|x] eqn:Hw.
  - destruct (decode_utf8 _); [discriminate|intros [= <-]; auto].
  - intros [= <-]. left. exact (walk_back_raises _ _ _ _ Hw).
Qed.

Lemma find_includes_loop_raises m headers : forall includes e,
  find_includes_loop m headers includes = Raise e ->
  e = IndexError \/ e = UnicodeDecodeError \/ e = UnicodeEncodeError.
Proof.
  induction headers as [|header headers IH]; intros includes e;
    cbn [find_includes_loop]; [discriminate|].
  destruct (check_header m header) as [[|]|x] eqn:Hc; eauto.
  intros [= <-]. exact (check_header_raises _ _ _ Hc).
Qed.

Lemma read_file_Some entries filename data :
  read_file entries filename = Some data ->
  exists e,
    In e entries /\ entry_is_file e = true /\ entry_name e = filename
    /\ entry_data e = data.
Proof.
  unfold read_file. intros H. apply fmap_Some in H as (e & Hf & ->).
  apply find_some in Hf as [Hin Hb].
  apply andb_true_iff in Hb as [Hfile Hname].
  apply bool_decide_eq_true in Hname. eauto.
Qed.

Lemma read_file_found entries filename e :
  In e entries -> entry_is_file e = true -> entry_name e = filename ->
  exists data, read_file entries filename = Some data.
Proof.
  intros Hin Hfile Hname. unfold read_file.
  destruct (List.find _ entries) as [e'|] eqn:Hf; [simpl; eauto|].
  exfalso. apply (find_none _ _ Hf) in Hin.
  rewrite Hfile, bool_decide_eq_true_2 in Hin by exact Hname. discriminate.
Qed.

Lemma add_files_ok_nonempty l : forall sf sf' e,
  add_files sf l = (sf', Ok tt) ->
  In e l -> is_c_or_cpp e = true -> entry_data e <> [].
Proof.
  induction l as [|x l IH]; intros sf sf' e Hrun Hin Hc; [destruct Hin|].
  cbn [add_files] in Hrun.
  destruct (add_file sf x) as [sf1 [[]|y]] eqn:Ha; [|discriminate].
  destruct Hin as [->|Hin]; [|eauto].
  apply add_file_ok in Ha as (_ & _ & _ & Hd). auto.
Qed.

(** After a scan that returns, a name of the ['.c'] or ['.cpp'] bucket is
    the name of a file of the directory that can be opened and mapped. *)
Lemma bucket_source_mapped w p sf (k name : str) fs :
  scan_files w (new_Source_Files p) = (sf, Ok tt) ->
  k = u ".c" \/ k = u ".cpp" ->
  files sf !! k = Some fs ->
  name ∈ fs_list fs ->
  exists c m, read_file (scandir w p) name = Some (c :: m).
Proof.
  intros Hscan Hk Hfs Hin.
  assert (Hext : k ∈ EXTS)
    by (unfold EXTS; rewrite !elem_of_cons; destruct Hk as [->| ->]; tauto).
  destruct (scan_files_bucket_list _ _ _ _ Hscan Hext) as (fs' & Hfs' & Hl).
  rewrite Hfs in Hfs'. injection Hfs' as <-.
  rewrite Hl in Hin. apply list_elem_of_In in Hin. unfold files_of_ext in Hin.
  apply in_map_iff in Hin as (e & Hname & Hin).
  apply filter_In in Hin as [Hin He]. apply filter_In in Hin as [Hin Hfile].
  apply bool_decide_eq_true in He.
  destruct (read_file_found _ _ _ Hin Hfile Hname) as [data Hread].
  destruct (read_file_Some _ _ _ Hread) as (e' & Hin' & Hfile' & Hname' & <-).
  assert (Hc : is_c_or_cpp e' = true).
  { unfold is_c_or_cpp, ext_of in *. rewrite Hname', <- Hname, He.
    destruct Hk as [->| ->]; reflexivity. }
  apply scan_files_ok in Hscan. cbn [path new_Source_Files] in Hscan.
  assert (Hne : entry_data e' <> []).
  { apply (add_files_ok_nonempty _ _ _ e' Hscan); [|exact Hc].
    apply filter_In. auto. }
  rewrite Hread. destruct (entry_data e') as [|c m]; [congruence|eauto].
Qed.

Lemma find_includes_raises_after_scan w p sf (k name : str) fs e :
  scan_files w (new_Source_Files p) = (sf, Ok tt) ->
  k = u ".c" \/ k = u ".cpp" ->
  files sf !! k = Some fs ->
  str_in name (fs_list fs) = true ->
  find_includes w sf name = Raise e ->
  e = IndexError \/ e = UnicodeDecodeError \/ e = UnicodeEncodeError.
Proof.
  intros Hscan Hk Hfs Hin. apply bool_decide_eq_true in Hin.
  destruct (bucket_source_mapped _ _ _ _ _ _ Hscan Hk Hfs Hin)
    as (c & m & Hread).
  pose proof (scan_files_path w (new_Source_Files p)) as Hp.
  pose proof (scan_files_std_keys w p) as Hkeys.
  rewrite Hscan in Hp, Hkeys. cbn [fst path new_Source_Files] in Hp, Hkeys.
  unfold find_includes. rewrite Hp, Hread.
  assert (Hh : u ".h" ∈ EXTS) by (unfold EXTS; rewrite !elem_of_cons; tauto).
  apply (std_keys_lookup _ _ Hkeys) in Hh as [h ->].
  apply find_includes_loop_raises.
Qed.

Lemma create_depend_loop_raises w p sf objs : forall depends includes e,
  scan_files w (new_Source_Files p) = (sf, Ok tt) ->
  create_depend_loop w sf objs depends includes = Raise e ->
  e = UnboundLocalError
  \/ e = IndexError \/ e = UnicodeDecodeError \/ e = UnicodeEncodeError.
Proof.
  induction objs as [|filename objs IH]; intros depends includes e Hscan;
    cbn [create_depend_loop]; [discriminate|].
  pose proof (scan_files_std_keys w p) as Hkeys.
  rewrite Hscan in Hkeys. cbn [fst] in Hkeys.
  assert (Hc : u ".c" ∈ EXTS) by (unfold EXTS; rewrite !elem_of_cons; tauto).
  assert (Hcpp : u ".cpp" ∈ EXTS)
    by (unfold EXTS; rewrite !elem_of_cons; tauto).
  apply (std_keys_lookup _ _ Hkeys) in Hc as [c_files Hc].
  apply (std_keys_lookup _ _ Hkeys) in Hcpp as [cpp_files Hcpp].
  rewrite Hc, Hcpp.
  destruct (str_in _ (fs_list c_files)) eqn:Hin1.
  - destruct (find_includes w sf _) as [i|x] eqn:Hf; cbn [assign_includes].
    + intros H. exact (IH _ _ _ Hscan H).
    + intros [= <-]. right.
      exact (find_includes_raises_after_scan _ _ _ _ _ _ _ Hscan
               (or_introl eq_refl) Hc Hin1 Hf).
  - destruct (str_in _ (fs_list cpp_files)) eqn:Hin2.
    + destruct (find_includes w sf _) as [i|x] eqn:Hf; cbn [assign_includes].
      * intros H. exact (IH _ _ _ Hscan H).
      * intros [= <-]. right.
        exact (find_includes_raises_after_scan _ _ _ _ _ _ _ Hscan
                 (or_intror eq_refl) Hcpp Hin2 Hf).
    + destruct includes as [i|].
      * intros H. exact (IH _ _ _ Hscan H).
      * intros [= <-]. now left.
Qed.

(** After a scan that returns, the dependency resolver raises nothing
    but [UnboundLocalError] (a unit without a source), [IndexError] (the
    backward walk), [UnicodeDecodeError] (the bytes after a ['#']) or
    [UnicodeEncodeError] (a header name): the sources it opens exist and
    are not empty, and the keys it reads are there. *)
Theorem create_depend_raises (w : World) (p : str) (sf : Source_Files)
    (e : exn) :
  scan_files w (new_Source_Files p) = (sf, Ok tt) ->
  create_depend w sf = Raise e ->
  e = UnboundLocalError
  \/ e = IndexError \/ e = UnicodeDecodeError \/ e = UnicodeEncodeError.
Proof. intros Hscan. now apply (create_depend_loop_raises w p). Qed.

Lemma create_depend_raises_witness :
  IndexError = UnboundLocalError
  \/ IndexError = IndexError \/ IndexError = UnicodeDecodeError
  \/ IndexError = UnicodeEncodeError.
Proof.
  apply (create_depend_raises (world_of dir_comment) proj_path
           (scanned dir_comment) IndexError).
  - vm_compute. reflexivity.
  - vm_compute. reflexivity.
Defined.

(** ** More on the emitter and the main program *)

Lemma read_flags_lines lines : forall flags,
  read_flags lines flags
  = flags
    ++ List.concat
         (List.map (fun line => strip line ++ NL)
            (List.filter (fun line => negb (bool_decide (strip line = [])))
               lines)).
Proof.
  induction lines as [|line lines IH]; intros flags; cbn [read_flags].
  - simpl. now rewrite app_nil_r.
  - simpl. destruct (negb (bool_decide (strip line = []))); rewrite IH.
    + simpl. now rewrite <- !app_assoc.
    + reflexivity.
Qed.

(** With a [header.txt] in the directory, the flags block is made of its
    lines, each stripped of the white space around it and followed by a
    newline; the lines that are blank once stripped are left out. *)
Theorem read_header_flags (w : World) (path : str) (lines : list str) :
  header_txt w (path ++ u "header.txt") = Some lines ->
  read_header w path
  = create_header (u "Flags from 'header.txt'")
    ++ List.concat
         (List.map (fun line => strip line ++ NL)
            (List.filter (fun line => negb (bool_decide (strip line = [])))
               lines))
    ++ NL ++ create_ender (u "Flags from 'header.txt'").
Proof.
  intros H. unfold read_header. rewrite H, read_flags_lines. reflexivity.
Qed.

Lemma read_header_flags_witness :
  read_header world_flags proj_path
  = create_header (u "Flags from 'header.txt'")
    ++ (u "CFLAGS = -O2" ++ NL ++ u "CXXFLAGS = -O2" ++ NL)
    ++ NL ++ create_ender (u "Flags from 'header.txt'").
Proof.
  apply (read_header_flags world_flags proj_path
           [u "CFLAGS = -O2" ++ NL; u "   " ++ NL;
            u "  CXXFLAGS = -O2  " ++ NL]).
  reflexivity.
Defined.

Lemma create_depend_loop_with_time w t sf objs : forall depends includes,
  create_depend_loop (with_time w t) sf objs depends includes
  = create_depend_loop w sf objs depends includes.
Proof.
  induction objs as [|filename objs IH]; intros depends includes;
    cbn [create_depend_loop]; [reflexivity|].
  change (find_includes (with_time w t) sf) with (find_includes w sf).
  repeat case_match; try reflexivity; apply IH.
Qed.

(** The time of the run shows in the top banner only: at two times the
    run ends with the same exception, or writes the same file with the
    same text after the banner of the time. *)
Theorem run_timestamp (w : World) (argv : list str) :
  (exists e, forall t, run (with_time w t) argv = Aborted e)
  \/ (exists file rest, forall t,
        run (with_time w t) argv = Written file (create_header t ++ rest)).
Proof.
  unfold run.
  destruct (Source_Files_init w (head argv)) as [sf0|e] eqn:Hinit.
  2:{ left. exists e. intros t.
      change (Source_Files_init (with_time w t) (head argv))
        with (Source_Files_init w (head argv)).
      now rewrite Hinit. }
  destruct (create_definitions w sf0) as [sf [defs|e]] eqn:Hdefs.
  2:{ left. exists e. intros t.
      change (Source_Files_init (with_time w t) (head argv))
        with (Source_Files_init w (head argv)).
      rewrite Hinit.
      change (create_definitions (with_time w t) sf0)
        with (create_definitions w sf0).
      now rewrite Hdefs. }
  destruct (create_depend w sf) as [deps|e] eqn:Hdep.
  2:{ left. exists e. intros t.
      change (Source_Files_init (with_time w t) (head argv))
        with (Source_Files_init w (head argv)).
      rewrite Hinit.
      change (create_definitions (with_time w t) sf0)
        with (create_definitions w sf0).
      rewrite Hdefs. unfold create_depend.
      rewrite create_depend_loop_with_time.
      fold (create_depend w sf). now rewrite Hdep. }
  destruct (can_write w (path sf) (u "Makefile")) eqn:Hw.
  - right. eexists _, _. intros t.
    change (Source_Files_init (with_time w t) (head argv))
      with (Source_Files_init w (head argv)).
    rewrite Hinit.
    change (create_definitions (with_time w t) sf0)
      with (create_definitions w sf0).
    rewrite Hdefs. unfold create_depend.
    rewrite create_depend_loop_with_time.
    fold (create_depend w sf). rewrite Hdep. unfold output_Makefile.
    change (can_write (with_time w t) (path sf) (u "Makefile"))
      with (can_write w (path sf) (u "Makefile")).
    rewrite Hw. reflexivity.
  - left. exists OSError. intros t.
    change (Source_Files_init (with_time w t) (head argv))
      with (Source_Files_init w (head argv)).
    rewrite Hinit.
    change (create_definitions (with_time w t) sf0)
      with (create_definitions w sf0).
    rewrite Hdefs. unfold create_depend.
    rewrite create_depend_loop_with_time.
    fold (create_depend w sf). rewrite Hdep. unfold output_Makefile.
    change (can_write (with_time w t) (path sf) (u "Makefile"))
      with (can_write w (path sf) (u "Makefile")).
    now rewrite Hw.
Qed.

Lemma create_definitions_path w sf :
  path (create_definitions w sf).1 = path sf.
Proof.
  unfold create_definitions, gather_files.
  pose proof (scan_files_path w sf) as Hp.
  destruct (scan_files w sf) as [sf1 [[]|e]]; cbn [fst] in Hp.
  - destruct (file_vars sf1); exact Hp.
  - exact Hp.
Qed.

(** A Makefile is written only in the directory that the constructor
    resolved and that was scanned: its name is the path of the object
    followed by [Makefile]. *)
Theorem run_written_location (w : World) (argv : list str)
    (file text : str) :
  run w argv = Written file text ->
  exists sf0,
    Source_Files_init w (head argv) = Ok sf0
    /\ file = path sf0 ++ u "Makefile".
Proof.
  unfold run. destruct (Source_Files_init w (head argv)) as [sf0|e];
    [|discriminate].
  pose proof (create_definitions_path w sf0) as Hp.
  destruct (create_definitions w sf0) as [sf [defs|e]]; [|discriminate].
  cbn [fst] in Hp.
  destruct (create_depend w sf); [|discriminate].
  unfold output_Makefile.
  destruct (can_write w (path sf) (u "Makefile")); [|discriminate].
  intros [= <- _]. exists sf0. now rewrite Hp.
Qed.

Lemma run_written_location_witness :
  exists sf0,
    Source_Files_init (world_of []) (head []) = Ok sf0
    /\ u "C:\proj\Makefile" = path sf0 ++ u "Makefile".
Proof.
  eapply (run_written_location (world_of []) [] (u "C:\proj\Makefile") _).
  vm_compute. reflexivity.
Defined.

(** A directory argument that exists neither under the working directory
    nor by itself ends the run with [PathNotFound] for that argument,
    before anything is scanned. *)
Theorem run_path_not_found (w : World) (dir : str) (rest : list str) :
  dir <> [] ->
  path_exists w (getcwd w ++ BACKSLASH ++ dir) = false ->
  path_exists w dir = false ->
  run w (dir :: rest) = Aborted (PathNotFound dir).
Proof.
  intros Hne H1 H2. unfold run, Source_Files_init. cbn [head].
  destruct dir as [|c d]; [congruence|]. now rewrite H1, H2.
Qed.

Lemma run_path_not_found_witness :
  run (world_of dir_util) [u "src"] = Aborted (PathNotFound (u "src")).
Proof.
  apply run_path_not_found.
  - discriminate.
  - reflexivity.
  - reflexivity.
Defined.



Lemma scan_files_consistent w p :
  buckets_consistent (scan_files w (new_Source_Files p)).1.
Proof.
  apply (scan_files_preserve buckets_consistent).
  - apply add_file_consistent.
  - apply new_Source_Files_consistent.
Qed.

Lemma EXTS_strip (k : str) : k ∈ EXTS -> strip k = k.
Proof.
  unfold EXTS. rewrite !elem_of_cons, elem_of_nil.
  intros [->|[->|[->|[->|[->|[]]]]]]; reflexivity.
Qed.

(** After a scan that returns, the strings that [gather_files] prints are
    the file lists of the directory: [get_files] gives, for each of the
    five extensions, the names of the regular files of that extension,
    each followed by a space, and for ['.o'] the object names of the
    units, in the order of the scan. *)
Theorem get_files_after_scan (w : World) (p : str) (sf : Source_Files) :
  scan_files w (new_Source_Files p) = (sf, Ok tt) ->
  (forall k : str, k ∈ EXTS ->
     get_files sf k = Some (joined (files_of_ext k (scandir w p))))
  /\ get_files sf (u ".o") = Some (joined (unit_names (scandir w p))).
Proof.
  intros Hscan.
  pose proof (scan_files_consistent w p) as [Hcons Hobj].
  pose proof (scan_files_std_keys w p) as Hkeys.
  rewrite Hscan in Hcons, Hobj, Hkeys. cbn [fst] in Hcons, Hobj, Hkeys.
  split.
  - intros k Hk. unfold get_files. rewrite (EXTS_strip k Hk).
    destruct (scan_files_bucket_list _ _ _ _ Hscan Hk) as (fs & Hfs & Hl).
    rewrite Hfs. destruct (Hcons _ _ Hfs) as [Hj _]. now rewrite Hj, Hl.
  - unfold get_files. change (strip (u ".o")) with (u ".o").
    destruct (files sf !! u ".o") as [fs|] eqn:Hl.
    + exfalso. assert (Hin : u ".o" ∈ EXTS)
        by (apply (std_keys_lookup _ _ Hkeys); eauto).
      apply list_elem_of_In in Hin. vm_compute in Hin.
      intuition discriminate.
    + rewrite bool_decide_eq_true_2 by reflexivity.
      destruct Hobj as [Hj _]. rewrite Hj. do 2 f_equal.
      apply scan_files_ok in Hscan. cbn [path new_Source_Files] in Hscan.
      now rewrite (add_files_ok_obj _ _ _ Hscan).
Qed.

Lemma get_files_after_scan_witness :
  (forall k : str, k ∈ EXTS ->
     get_files (scanned dir_mixed) k
     = Some (joined (files_of_ext k dir_mixed)))
  /\ get_files (scanned dir_mixed) (u ".o") = Some (u "util.o io.o ").
Proof.
  apply (get_files_after_scan (world_of dir_mixed) proj_path
           (scanned dir_mixed)).
  vm_compute. reflexivity.
Defined.
